(** * terraform_lint: a shallow embedding of [.github/scripts/terraform_lint.py]

    The script filters its arguments down to existing [.tf] files under two
    Terraform roots, runs [terraform fmt -check -diff] on each of them and
    then [tflint --init] / [tflint --minimum-failure-severity=error] in each
    distinct parent directory.  It is embedded here as a state-passing
    program over an abstract outside world (the filesystem and the external
    tools), together with the part of [pathlib] (CPython 3.12, POSIX flavour)
    that the script relies on. *)

From Stdlib Require Import String Ascii List ZArith Bool Arith Lia.
From Stdlib Require Import Permutation Sorted OrdersEx RelationClasses.
Import ListNotations.

Local Open Scope string_scope.
Local Open Scope list_scope.

(* ================================================================== *)
(** * Strings *)

Module Str.

(** The path separator of the POSIX flavour. *)
Definition sep : ascii := "/"%char.

(** [s.split("/")]: never empty, [n] separators give [n + 1] fields. *)
Fixpoint split_sep (s : string) : list string :=
  match s with
  | EmptyString => [EmptyString]
  | String c s' =>
      if Ascii.eqb c sep then EmptyString :: split_sep s'
      else match split_sep s' with
           | [] => [String c EmptyString]
           | h :: t => String c h :: t
           end
  end.

(** ["/".join(l)] *)
Definition join_sep (l : list string) : string := String.concat "/" l.

(** [s.startswith(pre)] *)
Definition startswith (s pre : string) : bool := String.prefix pre s.

(** [s.rfind(c)], with [None] for Python's [-1]. *)
Fixpoint rfind (c : ascii) (s : string) : option nat :=
  match s with
  | EmptyString => None
  | String a s' =>
      match rfind c s' with
      | Some i => Some (S i)
      | None => if Ascii.eqb a c then Some 0 else None
      end
  end.

(** A string without separator: what a path component is. *)
Fixpoint no_sep (s : string) : bool :=
  match s with
  | EmptyString => true
  | String c s' => negb (Ascii.eqb c sep) && no_sep s'
  end.

End Str.

(* ================================================================== *)
(** * pathlib, POSIX flavour *)

Module Pathlib.

Import Str.

(** A parsed path: pathlib keeps [drive], [root] and the list of
    components after the root ([_tail]); the drive is always empty on
    POSIX and is left out. *)
Record Path : Type := from_parsed_parts { root : string; tail : list string }.

(** [posixpath.splitroot], without the drive. *)
Definition splitroot (p : string) : string * string :=
  match p with
  | String c0 r1 =>
      if Ascii.eqb c0 sep then
        match r1 with
        | String c1 r2 =>
            if Ascii.eqb c1 sep then
              match r2 with
              | String c2 _ => if Ascii.eqb c2 sep then ("/", r1) else ("//", r2)
              | EmptyString => ("//", r2)
              end
            else ("/", r1)
        | EmptyString => ("/", r1)
        end
      else ("", p)
  | EmptyString => ("", p)
  end.

(** The components kept by [_parse_path]: [x and x != '.']. *)
Definition kept (x : string) : bool :=
  negb (String.eqb x "") && negb (String.eqb x ".").

(** [Path(s)]: [PurePath._parse_path]. *)
Definition Path_of (s : string) : Path :=
  if String.eqb s "" then from_parsed_parts "" []
  else let '(r, rel) := splitroot s in
       from_parsed_parts r (filter kept (split_sep rel)).

(** [str(p)]: [_format_parsed_parts(...) or '.'] *)
Definition str (p : Path) : string :=
  let s := if String.eqb (root p) "" then join_sep (tail p)
           else (root p ++ join_sep (tail p))%string in
  if String.eqb s "" then "." else s.

(** [p.as_posix()]: on POSIX the separator already is the forward slash. *)
Definition as_posix (p : Path) : string := str p.

(** [p.name] *)
Definition name (p : Path) : string := last (tail p) "".

(** [p.suffix]: the text from the last dot of the name on, unless that dot
    is the first or the last character of the name (the definition of
    CPython 3.12 and 3.13). *)
Definition suffix (p : Path) : string :=
  let n := name p in
  match rfind "."%char n with
  | Some i =>
      if Nat.ltb 0 i && Nat.ltb i (String.length n - 1)
      then substring i (String.length n - i) n
      else ""
  | None => ""
  end.

(** [p.parent] *)
Definition parent (p : Path) : Path :=
  match tail p with
  | [] => p
  | _ => from_parsed_parts (root p) (removelast (tail p))
  end.

(** [p.is_absolute()] *)
Definition is_absolute (p : Path) : bool := negb (String.eqb (root p) "").

(** [a / b]: an absolute right operand replaces the left one, a relative
    one is appended to it. *)
Definition truediv (a b : Path) : Path :=
  if is_absolute b then b
  else from_parsed_parts (root a) (tail a ++ tail b).

(** [p == q]: equality of the string forms ([_str_normcase]). *)
Definition path_eqb (p q : Path) : bool := String.eqb (str p) (str q).

(** [p._parts_normcase], the key of the ordering. *)
Definition parts_normcase (p : Path) : list string := split_sep (str p).

(** [p < q]: Python compares the two lists of strings lexicographically,
    and strings by code point. *)
Definition path_ltb (p q : Path) : bool :=
  match list_compare String_as_OT.compare (parts_normcase p) (parts_normcase q) with
  | Lt => true
  | _ => false
  end.

(** The invariant of every path object: the root is one of the three roots
    [splitroot] can return, and each component is non-empty, is not ["."]
    and holds no separator. *)
Definition root_ok (r : string) : bool :=
  String.eqb r "" || String.eqb r "/" || String.eqb r "//".

Definition part_ok (x : string) : bool := kept x && no_sep x.

Definition wf (p : Path) : bool := root_ok (root p) && forallb part_ok (tail p).

(** [{x for x in l}]: a later element equal to an earlier one is dropped.
    The elements are listed in order of first insertion; Python's iteration
    order is unspecified, and [sorted_enumeration] below shows that it is
    immaterial once the set is sorted. *)
Fixpoint set_of (l : list Path) : list Path :=
  match l with
  | [] => []
  | x :: l' => x :: filter (fun y => negb (path_eqb x y)) (set_of l')
  end.

(** [sorted(l)]: a stable sort that only uses [<]. *)
Fixpoint insert (x : Path) (l : list Path) : list Path :=
  match l with
  | [] => [x]
  | y :: l' => if path_ltb y x then y :: insert x l' else x :: y :: l'
  end.

Definition sorted (l : list Path) : list Path := fold_right insert [] l.

End Pathlib.

Notation "a // b" := (Pathlib.truediv a b) (at level 40, left associativity).

(* ================================================================== *)
(** * The outside world and the effects of the script *)

Module Effects.

Import Pathlib.

(** What [subprocess.run(command, cwd=...)] can do: the process ran and ended
    with a return code (negative when a signal killed it), or it could not
    be started at all and [subprocess.run] raised [OSError]. *)
Inductive Outcome : Type :=
| Exited (returncode : Z)
| NotStarted.

(** One call of [subprocess.run]. *)
Record Invocation : Type := invocation { command : list string; cwd : Path }.

(** An invocation together with what came of it. *)
Record Event : Type := event { invoked : Invocation; outcome : Outcome }.

(** What [os.stat] can answer: the path is there; it is not (the errors
    [ENOENT], [ENOTDIR], [EBADF] and [ELOOP], which [Path.exists] turns into
    [False], as it does a path that cannot be encoded); or the call fails
    with another error ([ENAMETOOLONG], [EACCES], ...), which [Path.exists]
    lets through as an [OSError]. *)
Inductive Stat : Type := Found | Absent | StatError.

(** The two exceptions that occur: the script's own [RuntimeError], and the
    [OSError] of a process that cannot be started or of a failing [stat]. *)
Inductive Exn : Type := RuntimeError | OSError.

Definition succeeded (e : Event) : bool :=
  match outcome e with
  | Exited rc => Z.eqb rc 0
  | NotStarted => false
  end.

Definition failed (e : Event) : bool := negb (succeeded e).

Section Monad.

Context {World : Type}.

(** A computation reads and changes the world, ends with a value or an
    exception, and leaves the list of the invocations it made. *)
Definition M (A : Type) : Type := World -> (Exn + A) * World * list Event.

Definition ret {A : Type} (a : A) : M A := fun w => (inr a, w, []).

Definition raise {A : Type} (e : Exn) : M A := fun w => (inl e, w, []).

Definition bind {A B : Type} (m : M A) (f : A -> M B) : M B :=
  fun w =>
    match m w with
    | (inr a, w1, t1) => let '(r, w2, t2) := f a w1 in (r, w2, t1 ++ t2)
    | (inl e, w1, t1) => (inl e, w1, t1)
    end.

(** [try: body  except RuntimeError: handler]; any other exception goes
    through. *)
Definition except_RuntimeError {A : Type} (body handler : M A) : M A :=
  fun w =>
    match body w with
    | (inl RuntimeError, w1, t1) => let '(r, w2, t2) := handler w1 in (r, w2, t1 ++ t2)
    | other => other
    end.

(** [for x in l: body x] *)
Fixpoint for_each {A : Type} (l : list A) (body : A -> M unit) : M unit :=
  match l with
  | [] => ret tt
  | x :: l' => bind (body x) (fun _ => for_each l' body)
  end.

(** The three components of a finished computation. *)
Definition result_of {A : Type} (x : (Exn + A) * World * list Event) : Exn + A :=
  fst (fst x).

Definition world_of {A : Type} (x : (Exn + A) * World * list Event) : World :=
  snd (fst x).

Definition trace_of {A : Type} (x : (Exn + A) * World * list Event) : list Event :=
  snd x.

End Monad.

End Effects.

Declare Scope lint_scope.
Notation "x <- m ;; k" := (Effects.bind m (fun x => k))
  (at level 61, m at next level, right associativity) : lint_scope.
Notation "m ;; k" := (Effects.bind m (fun _ => k))
  (at level 61, right associativity) : lint_scope.

(* ================================================================== *)
(** * terraform_lint.py *)

Module TerraformLint.

Import Str Pathlib Effects.

Local Open Scope lint_scope.

Section Script.

Context {World : Type}.

(** [os.stat] on a path string, as [Path.exists] uses it. *)
Variable fs_stat : World -> string -> Stat.

(** Running an external process: its outcome and the world it leaves. *)
Variable spawn : World -> Invocation -> Outcome * World.

(** [ROOT = Path(__file__).resolve().parents[2]] *)
Variable ROOT : Path.

(** [path.exists()]: [True] when [os.stat] finds the path, [False] when it
    reports it absent, and the [OSError] of any other failure. *)
Definition path_exists (path : Path) : M bool :=
  fun w =>
    match fs_stat w (str path) with
    | Found => (inr true, w, [])
    | Absent => (inr false, w, [])
    | StatError => (inl OSError, w, [])
    end.

(** [subprocess.run(command, cwd=cwd)] and its [returncode]. *)
Definition subprocess_run (command : list string) (cwd : Path) : M Z :=
  fun w =>
    let i := invocation command cwd in
    let '(o, w') := spawn w i in
    match o with
    | Exited rc => (inr rc, w', [event i o])
    | NotStarted => (inl OSError, w', [event i o])
    end.

(** [cwd or ROOT]: a path object is always true. *)
Definition cwd_or_ROOT (cwd : option Path) : Path :=
  match cwd with
  | Some d => d
  | None => ROOT
  end.

Definition run_command (command : list string) (cwd : option Path) : M unit :=
  returncode <- subprocess_run command (cwd_or_ROOT cwd) ;;
  if negb (Z.eqb returncode 0) then raise RuntimeError else ret tt.

(** [path.exists()] is the left operand of [or]: it is evaluated first, and
    what it raises leaves the function before the suffix is looked at. *)
Definition is_under_terraform_roots (path : Path) : M bool :=
  found <- path_exists path ;;
  if negb found || negb (String.eqb (suffix path) ".tf") then ret false
  else
    let posix_path := as_posix path in
    ret (startswith posix_path "initial-setup/infra/" || startswith posix_path "infra-ai-hub/").

Definition get_tflint_workdirs (changed_files : list Path) : list Path :=
  sorted (set_of (map (fun file_path => parent (ROOT // file_path)) changed_files)).

(** [[Path(file_path) for file_path in args
      if is_under_terraform_roots(Path(file_path))]]: the arguments are tested
    in order, and the first test that raises ends the comprehension. *)
Fixpoint comprehension (args : list string) : M (list Path) :=
  match args with
  | [] => ret []
  | file_path :: args' =>
      keep <- is_under_terraform_roots (Path_of file_path) ;;
      files <- comprehension args' ;;
      ret (if keep then Path_of file_path :: files else files)
  end.

(** The list comprehension at the head of [main], over [sys.argv[1:]]. *)
Definition changed_files (argv : list string) : M (list Path) :=
  comprehension (tl argv).

(** The body of the [try] statement; it ends without a [return]. *)
Definition checks (files : list Path) : M (option Z) :=
  for_each files (fun terraform_file =>
    run_command ["terraform"; "fmt"; "-check"; "-diff"; str (ROOT // terraform_file)] None) ;;
  for_each (get_tflint_workdirs files) (fun terraform_workdir =>
    run_command ["tflint"; "--init"] (Some terraform_workdir) ;;
    run_command ["tflint"; "--minimum-failure-severity=error"] (Some terraform_workdir)) ;;
  ret None.

(** [main()], with [sys.argv] as its argument. *)
Definition main (argv : list string) : M Z :=
  files <- changed_files argv ;;
  match files with
  | [] => ret 0%Z
  | _ =>
      returned <- except_RuntimeError (checks files) (ret (Some 1%Z)) ;;
      match returned with
      | Some code => ret code
      | None => ret 0%Z
      end
  end.

(** [sys.exit(main())]: the exit status of the process.  An exception that
    leaves [main] is reported by the interpreter, which then exits with
    status 1. *)
Definition exit_status (argv : list string) (w : World) : Z :=
  match result_of (main argv w) with
  | inr code => code
  | inl _ => 1%Z
  end.

(** The invocations of a run of [main], in order. *)
Definition invocations (argv : list string) (w : World) : list Invocation :=
  map invoked (trace_of (main argv w)).

End Script.

End TerraformLint.

(* ================================================================== *)
(** * The vocabulary of the properties *)

Module Spec.

Import Str Pathlib Effects TerraformLint.

(** ** Paths *)

(** The fields that the root contributes to [parts_normcase]. *)
Definition root_fields (r : string) : list string := removelast (split_sep r).

(** [parts_normcase] of a well-formed path, without going through the
    string form. *)
Definition fields (p : Path) : list string :=
  root_fields (root p) ++
  match tail p with
  | [] => [if String.eqb (root p) "" then "." else ""]
  | t => t
  end.

(** The order of paths as a relation. *)
Definition path_lt (p q : Path) : Prop := path_ltb p q = true.

(** The comparison that [path_ltb] tests. *)
Definition key_compare (p q : Path) : comparison :=
  list_compare String_as_OT.compare (parts_normcase p) (parts_normcase q).

(** Equality of parsed paths and of invocations is decidable; it is used to
    count occurrences. *)
Definition Path_eq_dec (p q : Path) : {p = q} + {p <> q}.
Proof. decide equality; [apply (list_eq_dec string_dec)|apply string_dec]. Defined.

Definition Invocation_eq_dec (i j : Invocation) : {i = j} + {i <> j}.
Proof. decide equality; [apply Path_eq_dec|apply (list_eq_dec string_dec)]. Defined.

(** ** The predicate as the specification words it

    The specification takes the forward-slash form of the path _relative to
    the repository root_: an absolute path below the root is first made
    relative to it, a relative path is read from the root as it stands. *)

(** What is left of [l] after the components [pre], if it starts with them. *)
Fixpoint strip_prefix (pre l : list string) : option (list string) :=
  match pre, l with
  | [], _ => Some l
  | x :: pre', y :: l' => if String.eqb x y then strip_prefix pre' l' else None
  | _ :: _, [] => None
  end.

(** The path relative to the repository root, when there is one. *)
Definition root_relative (ROOT p : Path) : option Path :=
  if is_absolute p then
    if String.eqb (root p) (root ROOT) then
      match strip_prefix (tail ROOT) (tail p) with
      | Some rest => Some (from_parsed_parts "" rest)
      | None => None
      end
    else None
  else Some p.

(** One of the two configured Terraform-root prefixes starts the string. *)
Definition under_configured_prefix (s : string) : Prop :=
  startswith s "initial-setup/infra/" = true \/ startswith s "infra-ai-hub/" = true.

(** The three conditions of the specification: the path exists, its
    extension is [.tf], and its root-relative form starts with one of the
    two prefixes. *)
Definition qualifies_by_spec {World : Type} (fs_stat : World -> string -> Stat)
    (ROOT : Path) (w : World) (p : Path) : Prop :=
  fs_stat w (str p) = Found /\
  suffix p = ".tf" /\
  exists r, root_relative ROOT p = Some r /\ under_configured_prefix (as_posix r).

(** ** The filter *)

Section Filter.

Context {World : Type}.
Variable fs_stat : World -> string -> Stat.

(** The predicate returns [True] on the path. *)
Definition qualifies (w : World) (p : Path) : bool :=
  match result_of (is_under_terraform_roots fs_stat p w) with
  | inr b => b
  | inl _ => false
  end.

(** [stat] fails on one of the arguments. *)
Definition stat_fails (w : World) (argv : list string) : bool :=
  existsb (fun s => match fs_stat w (str (Path_of s)) with
                    | StatError => true
                    | _ => false
                    end) (tl argv).

(** The changed files of a run: the list the comprehension builds, and no
    file when it raises. *)
Definition changed_files_of (w : World) (argv : list string) : list Path :=
  match result_of (changed_files fs_stat argv w) with
  | inr files => files
  | inl _ => []
  end.

End Filter.

(** ** Runs *)

(** An invocation of the lint tool, and one of the format check. *)
Definition is_tflint (i : Invocation) : bool :=
  match command i with
  | c :: _ => String.eqb c "tflint"
  | [] => false
  end.

Definition is_terraform_fmt (i : Invocation) : bool :=
  match command i with
  | c :: _ => String.eqb c "terraform"
  | [] => false
  end.

Section Plan.

Context {World : Type}.
Variable spawn : World -> Invocation -> Outcome * World.
Variable ROOT : Path.

(** The work directory of a file. *)
Definition workdir (file_path : Path) : Path := parent (ROOT // file_path).

(** The invocations [main] is written to make. *)
Definition fmt_check (f : Path) : Invocation :=
  invocation ["terraform"; "fmt"; "-check"; "-diff"; str (ROOT // f)] ROOT.

Definition lint_init (d : Path) : Invocation := invocation ["tflint"; "--init"] d.

Definition lint_check (d : Path) : Invocation :=
  invocation ["tflint"; "--minimum-failure-severity=error"] d.

Definition lint_steps (dirs : list Path) : list Invocation :=
  flat_map (fun d => [lint_init d; lint_check d]) dirs.

(** One format check per file in the order of the list, then initialisation
    and lint in each work directory in sorted order. *)
Definition plan (files : list Path) : list Invocation :=
  map fmt_check files ++ lint_steps (get_tflint_workdirs ROOT files).

(** What the outside world answers when every invocation of a list is made
    in turn, whatever the outcomes. *)
Fixpoint replay (w : World) (l : list Invocation) : list Event :=
  match l with
  | [] => []
  | i :: l' => let '(o, w') := spawn w i in event i o :: replay w' l'
  end.

(** The world after the given invocations. *)
Definition world_after (w : World) (l : list Invocation) : World :=
  fold_left (fun w i => snd (spawn w i)) l w.

(** A list of events cut after its first failure. *)
Fixpoint upto_failure (t : list Event) : list Event :=
  match t with
  | [] => []
  | e :: t' => if succeeded e then e :: upto_failure t' else [e]
  end.

(** How a sequence of [run_command] calls ends. *)
Definition verdict (t : list Event) : Exn + unit :=
  match find failed t with
  | None => inr tt
  | Some e => match outcome e with
              | NotStarted => inl OSError
              | Exited _ => inl RuntimeError
              end
  end.

(** Running a list of invocations with [run_command], one after the other. *)
Fixpoint exec (l : list Invocation) (w : World) : (Exn + unit) * World * list Event :=
  match l with
  | [] => (inr tt, w, [])
  | i :: l' =>
      let '(o, w1) := spawn w i in
      match o with
      | Exited rc =>
          if Z.eqb rc 0
          then let '(r, w2, t) := exec l' w1 in (r, w2, event i o :: t)
          else (inl RuntimeError, w1, [event i o])
      | NotStarted => (inl OSError, w1, [event i o])
      end
  end.

End Plan.

End Spec.

(* ================================================================== *)
(** * Concrete worlds *)

Module Worlds.

Import Str Pathlib Effects.

(** The repository is checked out at [/repo]. *)
Definition repo : Path := Path_of "/repo".

(** A world that only counts the invocations made in it, with tools whose
    outcome depends on the invocation alone. *)
Definition counting (tool : Invocation -> Outcome) (w : nat) (i : Invocation) :
    Outcome * nat :=
  (tool i, S w).

(** Every path exists. *)
Definition all_exist (_ : nat) (_ : string) : Stat := Found.

(** Only [README.md] and [modules/x.tf] exist. *)
Definition two_files (_ : nat) (s : string) : Stat :=
  if String.eqb s "README.md" || String.eqb s "modules/x.tf" then Found else Absent.

(** A filesystem whose names hold at most 255 characters: [stat] fails with
    [ENAMETOOLONG] on a path with a longer component, and finds every other
    path. *)
Definition name_max (_ : nat) (s : string) : Stat :=
  if existsb (fun c => Nat.ltb 255 (String.length c)) (split_sep s)
  then StatError else Found.

(** The string of [n] characters [c]. *)
Fixpoint replicate (n : nat) (c : ascii) : string :=
  match n with
  | O => EmptyString
  | S n' => String c (replicate n' c)
  end.

(** A file name of more than 255 characters, in the directory [dir] and with
    the extension [ext]. *)
Definition long_name (dir ext : string) : string :=
  (dir ++ replicate 256 "a" ++ ext)%string.

(** Tools that always succeed, that always fail, tools that are not
    installed, and a lint check that fails while everything else succeeds. *)
Definition all_pass (_ : Invocation) : Outcome := Exited 0.

Definition all_fail (_ : Invocation) : Outcome := Exited 1.

Definition not_installed (_ : Invocation) : Outcome := NotStarted.

Definition lint_fails (i : Invocation) : Outcome :=
  match command i with
  | ["tflint"; "--minimum-failure-severity=error"] => Exited 2
  | _ => Exited 0
  end.

End Worlds.

(* ================================================================== *)
(** * Facts about strings and their order *)

Module StrFacts.

Import Str.

Lemma split_sep_not_nil (s : string) : split_sep s <> [].
Proof.
  destruct s as [|c s]; simpl; [discriminate|].
  destruct (Ascii.eqb c sep); [discriminate|].
  destruct (split_sep s); discriminate.
Qed.

Lemma join_sep_cons (x y : string) (l : list string) :
  join_sep (x :: y :: l) = (x ++ String sep (join_sep (y :: l)))%string.
Proof. reflexivity. Qed.

Lemma split_sep_no_sep (x : string) : no_sep x = true -> split_sep x = [x].
Proof.
  induction x as [|c x IH]; simpl; intros H; [reflexivity|].
  apply andb_true_iff in H as [Hc Hx].
  apply negb_true_iff in Hc. rewrite Hc, (IH Hx). reflexivity.
Qed.

Lemma split_sep_app (x s : string) :
  no_sep x = true -> split_sep (x ++ String sep s) = x :: split_sep s.
Proof.
  induction x as [|c x IH]; simpl; intros H; [reflexivity|].
  apply andb_true_iff in H as [Hc Hx].
  apply negb_true_iff in Hc. rewrite Hc, (IH Hx). reflexivity.
Qed.

(** Splitting undoes joining, for components without separator. *)
Lemma split_join (l : list string) :
  l <> [] -> forallb no_sep l = true -> split_sep (join_sep l) = l.
Proof.
  induction l as [|x l IH]; intros Hne Hl; [congruence|].
  simpl in Hl. apply andb_true_iff in Hl as [Hx Hl].
  destruct l as [|y l].
  - apply split_sep_no_sep, Hx.
  - rewrite join_sep_cons, split_sep_app by exact Hx.
    f_equal. apply IH; [discriminate|exact Hl].
Qed.

(** Joining undoes splitting, always: [split_sep] is injective. *)
Lemma join_split (s : string) : join_sep (split_sep s) = s.
Proof.
  induction s as [|c s IH]; simpl; [reflexivity|].
  destruct (Ascii.eqb_spec c sep) as [->|Hc].
  - pose proof (split_sep_not_nil s) as Hne.
    destruct (split_sep s) as [|h t] eqn:E; [congruence|].
    rewrite join_sep_cons, IH. reflexivity.
  - destruct (split_sep s) as [|h t] eqn:E.
    + exfalso. now apply (split_sep_not_nil s).
    + destruct t as [|h' t].
      * cbn in *. congruence.
      * rewrite join_sep_cons in *. rewrite <- IH. reflexivity.
Qed.

Lemma split_sep_inj (s1 s2 : string) : split_sep s1 = split_sep s2 -> s1 = s2.
Proof.
  intros H. rewrite <- (join_split s1), <- (join_split s2), H. reflexivity.
Qed.

Lemma split_sep_all_no_sep (s : string) : forallb no_sep (split_sep s) = true.
Proof.
  induction s as [|c s IH]; simpl; [reflexivity|].
  destruct (Ascii.eqb c sep) eqn:Hc; simpl; [exact IH|].
  destruct (split_sep s) as [|h t]; simpl in *; rewrite Hc; simpl; [reflexivity|exact IH].
Qed.

(** The order of strings ([String_as_OT.compare], by character code) as
    [list_compare] needs it. *)
Lemma slt_irrefl (x : string) : String_as_OT.compare x x = Lt -> False.
Proof. exact (@StrictOrder_Irreflexive _ _ String_as_OT.lt_strorder x). Qed.

Lemma slt_trans (x y z : string) :
  String_as_OT.compare x y = Lt -> String_as_OT.compare y z = Lt ->
  String_as_OT.compare x z = Lt.
Proof. exact (@StrictOrder_Transitive _ _ String_as_OT.lt_strorder x y z). Qed.

Lemma cmp_eq (x y : string) : String_as_OT.compare x y = Eq <-> x = y.
Proof.
  destruct (String_as_OT.compare_spec x y) as [H|H|H]; unfold String_as_OT.lt in H.
  - tauto.
  - split; [discriminate|]. intros ->. destruct (slt_irrefl _ H).
  - split; [discriminate|]. intros ->. destruct (slt_irrefl _ H).
Qed.

Lemma cmp_opp (x y : string) :
  String_as_OT.compare y x = CompOpp (String_as_OT.compare x y).
Proof.
  destruct (String_as_OT.compare_spec x y) as [H|H|H]; unfold String_as_OT.lt in H; simpl.
  - subst. now apply cmp_eq.
  - destruct (String_as_OT.compare y x) eqn:E; [|destruct (slt_irrefl x); eauto using slt_trans|reflexivity].
    apply cmp_eq in E. subst. destruct (slt_irrefl _ H).
  - exact H.
Qed.

Lemma cmp_trans (x y z : string) (c : comparison) :
  String_as_OT.compare x y = c -> String_as_OT.compare y z = c ->
  String_as_OT.compare x z = c.
Proof.
  destruct c; intros H1 H2.
  - apply cmp_eq in H1, H2. subst. now apply cmp_eq.
  - exact (slt_trans _ _ _ H1 H2).
  - rewrite cmp_opp in H1, H2. rewrite cmp_opp.
    destruct (String_as_OT.compare y x) eqn:E1; try discriminate.
    destruct (String_as_OT.compare z y) eqn:E2; try discriminate.
    now rewrite (slt_trans _ _ _ E2 E1).
Qed.

(** A string that begins with the separator begins with neither prefix. *)
Lemma startswith_head (c : ascii) (s pre : string) (d : ascii) (pre' : string) :
  pre = String d pre' -> c <> d -> startswith (String c s) pre = false.
Proof.
  intros -> Hcd. unfold startswith. simpl.
  destruct (ascii_dec d c) as [E|_]; [congruence|reflexivity].
Qed.

Lemma startswith_spec (s pre : string) :
  startswith s pre = true <-> exists rest, s = (pre ++ rest)%string.
Proof.
  unfold startswith. revert s.
  induction pre as [|d pre IH]; intros s.
  - destruct s; simpl; split; intros; eauto.
  - destruct s as [|c s]; simpl.
    + split; [discriminate|]. intros [rest H]. discriminate.
    + destruct (ascii_dec d c) as [->|Hn].
      * rewrite IH. split; intros [rest H]; exists rest; [now subst|now inversion H].
      * split; [discriminate|]. intros [rest H]. inversion H. congruence.
Qed.

End StrFacts.

(* ================================================================== *)
(** * Facts about paths *)

Module PathFacts.

Import Str StrFacts Pathlib Spec.


Lemma root_ok_cases (r : string) :
  root_ok r = true -> r = "" \/ r = "/" \/ r = "//".
Proof.
  unfold root_ok. intros H.
  apply orb_true_iff in H as [H|H]; [apply orb_true_iff in H as [H|H]|];
    apply String.eqb_eq in H; auto.
Qed.

Lemma wf_inv (p : Path) :
  wf p = true ->
  (root p = "" \/ root p = "/" \/ root p = "//") /\ forallb part_ok (tail p) = true.
Proof.
  unfold wf. intros H. apply andb_true_iff in H as [Hr Ht].
  split; [now apply root_ok_cases|exact Ht].
Qed.

Lemma part_ok_inv (x : string) :
  part_ok x = true -> x <> "" /\ x <> "." /\ no_sep x = true.
Proof.
  unfold part_ok, kept. intros H.
  apply andb_true_iff in H as [H Hs]. apply andb_true_iff in H as [H1 H2].
  apply negb_true_iff, String.eqb_neq in H1, H2. auto.
Qed.

Lemma forallb_part_ok_no_sep (t : list string) :
  forallb part_ok t = true -> forallb no_sep t = true.
Proof.
  induction t as [|x t IH]; simpl; [reflexivity|]. intros H.
  apply andb_true_iff in H as [Hx Ht].
  apply part_ok_inv in Hx as (_ & _ & Hx). now rewrite Hx, IH.
Qed.

Lemma join_sep_not_empty (x : string) (t : list string) :
  x <> "" -> join_sep (x :: t) <> "".
Proof.
  intros Hx. destruct t as [|y t].
  - exact Hx.
  - rewrite join_sep_cons. destruct x; [congruence|discriminate].
Qed.

Lemma parts_normcase_wf (p : Path) : wf p = true -> parts_normcase p = fields p.
Proof.
  intros H. apply wf_inv in H as [Hr Ht].
  destruct p as [r t]. simpl in *. unfold parts_normcase, fields, str. simpl.
  destruct t as [|x t].
  - destruct Hr as [->|[->| ->]]; reflexivity.
  - pose proof (forallb_part_ok_no_sep _ Ht) as Hns.
    simpl in Ht. apply andb_true_iff in Ht as [Hx _].
    apply part_ok_inv in Hx as (Hx & _ & _).
    pose proof (join_sep_not_empty x t Hx) as Hj.
    assert (Hsplit : split_sep (join_sep (x :: t)) = x :: t)
      by (apply split_join; [discriminate|exact Hns]).
    remember (join_sep (x :: t)) as j eqn:Ej. clear Ej.
    destruct Hr as [->|[->| ->]]; cbn.
    + apply String.eqb_neq in Hj. rewrite Hj. exact Hsplit.
    + now rewrite Hsplit.
    + now rewrite Hsplit.
Qed.

Lemma fields_inj (p q : Path) :
  wf p = true -> wf q = true -> fields p = fields q -> p = q.
Proof.
  intros Hp Hq. apply wf_inv in Hp as [Hrp Htp], Hq as [Hrq Htq].
  destruct p as [rp tp], q as [rq tq]. unfold fields. simpl in *.
  assert (Hhead : forall x t, forallb part_ok (x :: t) = true -> x <> "" /\ x <> ".").
  { intros x t H. simpl in H. apply andb_true_iff in H as [H _].
    apply part_ok_inv in H. tauto. }
  destruct Hrp as [->|[->| ->]], Hrq as [->|[->| ->]];
    destruct tp as [|x tp], tq as [|y tq]; cbn; intros E;
    try reflexivity; try discriminate;
    try (apply Hhead in Htp; destruct Htp); try (apply Hhead in Htq; destruct Htq);
    try (injection E; intros; subst; congruence).
Qed.

(** Two path objects are equal in Python exactly when they are the same
    parsed path. *)
Lemma str_inj (p q : Path) : wf p = true -> wf q = true -> str p = str q -> p = q.
Proof.
  intros Hp Hq E. apply fields_inj; try assumption.
  rewrite <- !parts_normcase_wf by assumption.
  unfold parts_normcase. now rewrite E.
Qed.

Lemma path_eqb_refl (p : Path) : path_eqb p p = true.
Proof. apply String.eqb_refl. Qed.

Lemma path_eqb_eq (p q : Path) :
  wf p = true -> wf q = true -> (path_eqb p q = true <-> p = q).
Proof.
  intros Hp Hq. unfold path_eqb. rewrite String.eqb_eq.
  split; [now apply str_inj|now intros ->].
Qed.

(** ** Every operation of the script keeps paths well-formed *)

Lemma splitroot_root_ok (s : string) : root_ok (fst (splitroot s)) = true.
Proof.
  destruct s as [|c0 [|c1 [|c2 s]]]; simpl; try reflexivity;
    repeat match goal with
    | |- context [if ?b then _ else _] => destruct b
    end; reflexivity.
Qed.

Lemma wf_tail_filter (s : string) : forallb part_ok (filter kept (split_sep s)) = true.
Proof.
  pose proof (split_sep_all_no_sep s) as H.
  induction (split_sep s) as [|x l IH]; simpl in *; [reflexivity|].
  apply andb_true_iff in H as [Hx Hl].
  destruct (kept x) eqn:K; simpl; [|now apply IH].
  unfold part_ok. rewrite K, Hx. simpl. now apply IH.
Qed.

Lemma wf_Path_of (s : string) : wf (Path_of s) = true.
Proof.
  unfold Path_of. destruct (String.eqb s ""); [reflexivity|].
  pose proof (splitroot_root_ok s) as Hr.
  destruct (splitroot s) as [r rel]. unfold wf. simpl in *.
  now rewrite Hr, wf_tail_filter.
Qed.

Lemma forallb_removelast {A : Type} (f : A -> bool) (l : list A) :
  forallb f l = true -> forallb f (removelast l) = true.
Proof.
  induction l as [|x l IH]; simpl; [reflexivity|]. intros H.
  apply andb_true_iff in H as [Hx Hl].
  destruct l as [|y l]; [reflexivity|].
  change (f x && forallb f (removelast (y :: l)) = true). now rewrite Hx, IH.
Qed.

Lemma wf_parent (p : Path) : wf p = true -> wf (parent p) = true.
Proof.
  unfold parent. destruct (tail p) as [|x t] eqn:E; [easy|].
  unfold wf. cbn [root tail]. intros H. apply andb_true_iff in H as [Hr Ht].
  rewrite E in Ht. rewrite Hr. now apply forallb_removelast.
Qed.

Lemma wf_truediv (a b : Path) : wf a = true -> wf b = true -> wf (a // b) = true.
Proof.
  unfold truediv. destruct (is_absolute b); [easy|].
  unfold wf. simpl. intros Ha Hb.
  apply andb_true_iff in Ha as [Hr Ha], Hb as [_ Hb].
  now rewrite Hr, forallb_app, Ha, Hb.
Qed.

(** ** The suffix *)

Lemma length_app (s t : string) :
  String.length (s ++ t) = String.length s + String.length t.
Proof. induction s as [|c s IH]; simpl; [reflexivity|now rewrite IH]. Qed.

Lemma substring_all (s : string) : substring 0 (String.length s) s = s.
Proof. induction s as [|c s IH]; simpl; [reflexivity|now rewrite IH]. Qed.

Lemma substring_skip (s t : string) (n : nat) :
  substring (String.length s) n (s ++ t) = substring 0 n t.
Proof. induction s as [|c s IH]; simpl; [reflexivity|exact IH]. Qed.

Lemma substring_split (s : string) (i : nat) :
  i <= String.length s ->
  s = (substring 0 i s ++ substring i (String.length s - i) s)%string.
Proof.
  revert i. induction s as [|c s IH]; intros i Hi.
  - destruct i; [reflexivity|simpl in Hi; lia].
  - destruct i as [|i].
    + cbn [substring append]. rewrite Nat.sub_0_r.
      change (String.length (String c s)) with (S (String.length s)).
      cbn [substring]. now rewrite substring_all.
    + simpl in Hi. cbn [substring append String.length Nat.sub].
      f_equal. apply IH. lia.
Qed.

Lemma rfind_lt (c : ascii) (s : string) (i : nat) :
  rfind c s = Some i -> i < String.length s.
Proof.
  revert i. induction s as [|a s IH]; intros i; simpl; [discriminate|].
  destruct (rfind c s) as [j|].
  - intros H. injection H as <-. specialize (IH j eq_refl). lia.
  - destruct (Ascii.eqb a c); [|discriminate]. intros H. injection H as <-. lia.
Qed.

Lemma rfind_app (c : ascii) (s t : string) :
  rfind c t = None -> rfind c (s ++ String c t) = Some (String.length s).
Proof.
  intros Ht. induction s as [|a s IH]; simpl.
  - now rewrite Ht, Ascii.eqb_refl.
  - now rewrite IH.
Qed.

(** The suffix of a path is [.tf] exactly when its name is a non-empty stem
    followed by [.tf]. *)
Lemma suffix_tf_iff (p : Path) :
  suffix p = ".tf" <-> exists stem, stem <> "" /\ name p = (stem ++ ".tf")%string.
Proof.
  unfold suffix. split.
  - destruct (rfind "."%char (name p)) as [i|] eqn:E; [|discriminate].
    pose proof (rfind_lt _ _ _ E) as Hi.
    destruct (Nat.ltb_spec 0 i) as [H0|H0]; [|discriminate].
    destruct (Nat.ltb i (String.length (name p) - 1)); [|discriminate].
    cbn [andb]. intros H.
    exists (substring 0 i (name p)). split.
    + destruct (name p) as [|a n]; [simpl in Hi; lia|].
      destruct i as [|i]; [lia|]. discriminate.
    + rewrite <- H. apply substring_split. lia.
  - intros (stem & Hne & ->).
    rewrite (rfind_app "."%char stem "tf" eq_refl), length_app.
    assert (H0 : Nat.ltb 0 (String.length stem) = true).
    { apply Nat.ltb_lt. destruct stem; [congruence|simpl; lia]. }
    assert (H1 : Nat.ltb (String.length stem) (String.length stem + String.length ".tf" - 1) = true).
    { apply Nat.ltb_lt. simpl. lia. }
    rewrite H0, H1. cbn [andb].
    replace (String.length stem + String.length ".tf" - String.length stem)
      with 3 by (simpl; lia).
    now rewrite substring_skip.
Qed.

(** ** The model on examples *)

Example Path_of_relative : Path_of "./infra-ai-hub//a/x.tf" =
  from_parsed_parts "" ["infra-ai-hub"; "a"; "x.tf"].
Proof. reflexivity. Qed.

Example Path_of_keeps_dotdot : as_posix (Path_of "infra-ai-hub/../x.tf") = "infra-ai-hub/../x.tf".
Proof. reflexivity. Qed.

Example Path_of_roots :
  (root (Path_of "/a"), root (Path_of "//a"), root (Path_of "///a"), str (Path_of ""))
  = ("/", "//", "/", ".").
Proof. reflexivity. Qed.

Example suffix_examples :
  map (fun s => suffix (Path_of s)) ["a/x.tf"; "a/.tf"; "a/x.tf.bak"; "a/x.tf/"; "x.TF"; "tf"]
  = [".tf"; ""; ".bak"; ".tf"; ".TF"; ""].
Proof. reflexivity. Qed.

Example parent_of_joined :
  str (parent (Path_of "/repo" // Path_of "infra-ai-hub/a/x.tf")) = "/repo/infra-ai-hub/a".
Proof. reflexivity. Qed.

End PathFacts.

(* ================================================================== *)
(** * The order of paths, sets and sorting *)

Module SortFacts.

Import Str StrFacts Pathlib Spec PathFacts.


Lemma path_ltb_key (p q : Path) : path_ltb p q = true <-> key_compare p q = Lt.
Proof.
  unfold path_ltb, key_compare.
  destruct (list_compare _ _ _); split; intros H; try discriminate; reflexivity.
Qed.

Lemma path_lt_irrefl (p : Path) : ~ path_lt p p.
Proof.
  unfold path_lt. rewrite path_ltb_key. unfold key_compare.
  rewrite (proj2 (list_compare_refl _ cmp_eq _ _) eq_refl). discriminate.
Qed.

Lemma path_lt_trans (p q r : Path) : path_lt p q -> path_lt q r -> path_lt p r.
Proof.
  unfold path_lt. rewrite !path_ltb_key. unfold key_compare.
  intros H1 H2. exact (list_compare_trans _ cmp_eq _ _ _ cmp_trans cmp_opp H1 H2).
Qed.

Lemma path_lt_asym (p q : Path) : path_lt p q -> ~ path_lt q p.
Proof.
  intros H1 H2. exact (path_lt_irrefl p (path_lt_trans _ _ _ H1 H2)).
Qed.

(** Two paths that are not ordered have the same string form. *)
Lemma path_lt_total (p q : Path) : ~ path_lt p q -> ~ path_lt q p -> str p = str q.
Proof.
  unfold path_lt. rewrite !path_ltb_key. unfold key_compare. intros H1 H2.
  apply split_sep_inj. apply (list_compare_refl _ cmp_eq).
  fold (parts_normcase p) (parts_normcase q).
  rewrite (list_compare_antisym _ cmp_eq _ _ cmp_opp) in H2.
  destruct (list_compare String_as_OT.compare (parts_normcase p) (parts_normcase q));
    simpl in *; congruence.
Qed.

(** ** Insertion sort *)

Lemma insert_perm (x : Path) (l : list Path) : Permutation (insert x l) (x :: l).
Proof.
  induction l as [|y l IH]; simpl; [reflexivity|].
  destruct (path_ltb y x); [|reflexivity].
  rewrite IH. apply perm_swap.
Qed.

Lemma sorted_perm (l : list Path) : Permutation (sorted l) l.
Proof.
  induction l as [|x l IH]; simpl; [reflexivity|].
  rewrite insert_perm. now constructor.
Qed.

Lemma sorted_In (l : list Path) (x : Path) : In x (sorted l) <-> In x l.
Proof.
  split; apply Permutation_in; [|symmetry]; apply sorted_perm.
Qed.

Lemma insert_sorted (x : Path) (l : list Path) :
  StronglySorted path_lt l ->
  (forall y, In y l -> str y <> str x) ->
  StronglySorted path_lt (insert x l).
Proof.
  induction 1 as [|y l Hl IH Hy]; intros Hx; simpl.
  - repeat constructor.
  - destruct (path_ltb y x) eqn:E.
    + constructor.
      * apply IH. intros z Hz. apply Hx. now right.
      * apply Forall_forall. intros z Hz.
        apply (Permutation_in _ (insert_perm x l)) in Hz.
        destruct Hz as [<-|Hz]; [exact E|].
        rewrite Forall_forall in Hy. now apply Hy.
    + assert (Hxy : path_lt x y).
      { destruct (path_ltb x y) eqn:E'; [exact E'|].
        exfalso. apply (Hx y); [now left|].
        apply path_lt_total; unfold path_lt; congruence. }
      constructor; [now constructor|].
      constructor; [exact Hxy|].
      eapply Forall_impl; [|exact Hy].
      intros z Hz. exact (path_lt_trans _ _ _ Hxy Hz).
Qed.

Lemma sorted_sorted (l : list Path) :
  NoDup (map str l) -> StronglySorted path_lt (sorted l).
Proof.
  induction l as [|x l IH]; simpl; intros H; [constructor|].
  inversion H as [|? ? Hx Hl]; subst.
  apply insert_sorted; [now apply IH|].
  intros y Hy E. apply Hx. rewrite <- E. apply in_map.
  now apply sorted_In.
Qed.

(** A strictly sorted list is determined by its elements. *)
Lemma sorted_unique (l1 l2 : list Path) :
  StronglySorted path_lt l1 -> StronglySorted path_lt l2 ->
  (forall x, In x l1 <-> In x l2) -> l1 = l2.
Proof.
  intros H1. revert l2.
  induction H1 as [|a l1 Hl1 IH Ha]; intros l2 H2 Hin.
  - destruct l2 as [|b l2]; [reflexivity|].
    destruct (proj2 (Hin b) (or_introl eq_refl)).
  - destruct H2 as [|b l2 Hl2 Hb].
    + destruct (proj1 (Hin a) (or_introl eq_refl)).
    + rewrite Forall_forall in Ha, Hb.
      assert (a = b) as <-.
      { destruct (proj1 (Hin a) (or_introl eq_refl)) as [E|Hab]; [now symmetry|].
        destruct (proj2 (Hin b) (or_introl eq_refl)) as [E|Hba]; [exact E|].
        destruct (path_lt_asym _ _ (Ha _ Hba) (Hb _ Hab)). }
      f_equal. apply IH; [exact Hl2|].
      intros x. split; intros Hx.
      * destruct (proj1 (Hin x) (or_intror Hx)) as [<-|Hx']; [|exact Hx'].
        destruct (path_lt_irrefl _ (Ha _ Hx)).
      * destruct (proj2 (Hin x) (or_intror Hx)) as [<-|Hx']; [|exact Hx'].
        destruct (path_lt_irrefl _ (Hb _ Hx)).
Qed.

(** ** Sets *)

Lemma set_of_incl (l : list Path) (x : Path) : In x (set_of l) -> In x l.
Proof.
  revert x. induction l as [|y l IH]; simpl; intros x; [easy|].
  intros [<-|H]; [now left|]. right.
  apply filter_In in H as [H _]. now apply IH.
Qed.

Lemma NoDup_map_filter (f : Path -> bool) (l : list Path) :
  NoDup (map str l) -> NoDup (map str (filter f l)).
Proof.
  induction l as [|y l IH]; simpl; intros H; [constructor|].
  inversion H as [|? ? Hy Hl]; subst.
  destruct (f y); simpl; [|now apply IH].
  constructor; [|now apply IH].
  intros Hin. apply Hy. apply in_map_iff in Hin as (z & Ez & Hz).
  apply filter_In in Hz as [Hz _]. rewrite <- Ez. now apply in_map.
Qed.

(** No two elements of a set are equal in Python's sense. *)
Lemma set_of_NoDup (l : list Path) : NoDup (map str (set_of l)).
Proof.
  induction l as [|x l IH]; simpl; constructor.
  - intros Hin. apply in_map_iff in Hin as (z & Ez & Hz).
    apply filter_In in Hz as [_ Hz]. apply negb_true_iff in Hz.
    unfold path_eqb in Hz. apply String.eqb_neq in Hz. congruence.
  - now apply NoDup_map_filter.
Qed.

(** A set of well-formed paths holds exactly the paths put into it. *)
Lemma set_of_In (l : list Path) (x : Path) :
  forallb wf l = true -> (In x (set_of l) <-> In x l).
Proof.
  intros Hwf. split; [apply set_of_incl|].
  induction l as [|y l IH]; simpl; [easy|].
  simpl in Hwf. apply andb_true_iff in Hwf as [Hy Hl].
  intros [<-|H]; [now left|].
  destruct (path_eqb y x) eqn:E.
  - left. apply path_eqb_eq; try assumption.
    rewrite forallb_forall in Hl. now apply Hl.
  - right. apply filter_In. split; [now apply IH|now rewrite E].
Qed.

Lemma NoDup_str (l : list Path) : NoDup (map str l) -> NoDup l.
Proof. apply NoDup_map_inv. Qed.

(** Whatever the order in which a set of well-formed paths is enumerated,
    sorting the enumeration gives the same list. *)
Lemma sorted_enumeration (l e : list Path) :
  forallb wf l = true ->
  NoDup (map str e) -> (forall x, In x e <-> In x (set_of l)) ->
  sorted e = sorted (set_of l).
Proof.
  intros Hwf He Hin.
  apply sorted_unique.
  - now apply sorted_sorted.
  - apply sorted_sorted, set_of_NoDup.
  - intros x. rewrite !sorted_In. apply Hin.
Qed.

(** [sorted(set(l))] does not depend on the order of [l]. *)
Lemma sorted_set_of_perm (l1 l2 : list Path) :
  forallb wf l1 = true -> Permutation l1 l2 ->
  sorted (set_of l1) = sorted (set_of l2).
Proof.
  intros Hwf Hp.
  assert (Hwf2 : forallb wf l2 = true).
  { rewrite forallb_forall in *. intros x Hx. apply Hwf.
    apply Permutation_in with l2; [now symmetry|exact Hx]. }
  apply sorted_unique; try apply sorted_sorted, set_of_NoDup.
  intros x. rewrite !sorted_In, !set_of_In by assumption.
  split; apply Permutation_in; [exact Hp|now symmetry].
Qed.

End SortFacts.

(* ================================================================== *)
(** * The qualification predicate *)

Module Qualify.

Import Str StrFacts Pathlib PathFacts Effects TerraformLint Spec Worlds.

Section Predicate.

Context {World : Type}.
Variable fs_stat : World -> string -> Stat.

(** The predicate, in one equation: it reads the filesystem once, changes
    nothing and runs nothing. *)
Lemma is_under_run (w : World) (p : Path) :
  is_under_terraform_roots fs_stat p w =
  (match fs_stat w (str p) with
   | Found =>
       inr (String.eqb (suffix p) ".tf" &&
            (startswith (as_posix p) "initial-setup/infra/" ||
             startswith (as_posix p) "infra-ai-hub/"))
   | Absent => inr false
   | StatError => inl OSError
   end, w, []).
Proof.
  unfold is_under_terraform_roots, bind, path_exists.
  destruct (fs_stat w (str p)); try reflexivity.
  cbn [negb orb]. destruct (String.eqb (suffix p) ".tf"); reflexivity.
Qed.

Lemma under_roots_true (w : World) (p : Path) :
  result_of (is_under_terraform_roots fs_stat p w) = inr true <->
  fs_stat w (str p) = Found /\ suffix p = ".tf" /\
  under_configured_prefix (as_posix p).
Proof.
  rewrite is_under_run. cbn [result_of fst]. unfold under_configured_prefix.
  destruct (fs_stat w (str p)).
  - destruct (String.eqb_spec (suffix p) ".tf") as [E|E]; cbn [andb].
    + rewrite <- orb_true_iff.
      destruct (_ || _); split; intros H; try discriminate; auto.
      destruct H as (_ & _ & H). discriminate.
    + split; [discriminate|]. intros (_ & H & _). contradiction.
  - split; [discriminate|]. intros [H _]. discriminate.
  - split; [discriminate|]. intros [H _]. discriminate.
Qed.

Lemma under_roots_false (w : World) (p : Path) :
  result_of (is_under_terraform_roots fs_stat p w) = inr false <->
  fs_stat w (str p) = Absent \/
  (fs_stat w (str p) = Found /\
   (suffix p <> ".tf" \/ ~ under_configured_prefix (as_posix p))).
Proof.
  rewrite is_under_run. cbn [result_of fst]. unfold under_configured_prefix.
  destruct (fs_stat w (str p)).
  - destruct (String.eqb_spec (suffix p) ".tf") as [E|E]; cbn [andb].
    + rewrite <- orb_true_iff.
      destruct (_ || _); split; intros H; try reflexivity.
      * discriminate.
      * destruct H as [H|[_ [H|H]]]; [discriminate|contradiction|].
        exfalso. now apply H.
      * right. split; [reflexivity|]. right. discriminate.
    + split; [|reflexivity]. intros _. right. auto.
  - split; [auto|reflexivity].
  - split; [discriminate|]. intros [H|[H _]]; discriminate.
Qed.

Lemma under_roots_raises (w : World) (p : Path) :
  (exists e, result_of (is_under_terraform_roots fs_stat p w) = inl e) <->
  fs_stat w (str p) = StatError.
Proof.
  rewrite is_under_run. cbn [result_of fst].
  destruct (fs_stat w (str p)); split; intros H; try discriminate;
    try (destruct H; discriminate); eauto.
Qed.

Lemma qualifies_true (w : World) (p : Path) :
  qualifies fs_stat w p = true <->
  result_of (is_under_terraform_roots fs_stat p w) = inr true.
Proof.
  unfold qualifies.
  destruct (result_of (is_under_terraform_roots fs_stat p w)) as [e|[|]];
    split; intros H; try discriminate; reflexivity.
Qed.

(** A qualifying path is relative and has components. *)
Lemma under_prefix_relative (p : Path) :
  wf p = true -> under_configured_prefix (as_posix p) ->
  is_absolute p = false /\ tail p <> [].
Proof.
  intros Hwf Hp. apply wf_inv in Hwf as [Hr _].
  destruct p as [r t]. unfold is_absolute, under_configured_prefix, as_posix, str in *.
  cbn [root tail] in *.
  destruct Hr as [->|[->| ->]].
  - split; [reflexivity|]. intros ->. destruct Hp as [Hp|Hp]; discriminate Hp.
  - exfalso. cbn in Hp. destruct Hp as [Hp|Hp]; discriminate Hp.
  - exfalso. cbn in Hp. destruct Hp as [Hp|Hp]; discriminate Hp.
Qed.

Lemma qualifying_relative (w : World) (s : string) :
  qualifies fs_stat w (Path_of s) = true ->
  is_absolute (Path_of s) = false /\ tail (Path_of s) <> [].
Proof.
  intros H. apply qualifies_true, under_roots_true in H as (_ & _ & H).
  apply under_prefix_relative; [apply wf_Path_of|exact H].
Qed.

(** C1, as amended: [is_under_terraform_roots] returns [True] exactly when
    [stat] finds the path, its suffix is [.tf], and its own forward-slash
    form, as the caller supplied it and not re-based on the repository root,
    starts with one of the two prefixes; it returns [False] exactly when the
    path is absent, or is found and its suffix or its prefix is another; it
    raises [OSError] exactly when [stat] fails for another reason than
    absence, whatever the suffix and the prefix; and it changes nothing and
    runs nothing. *)
Theorem is_under_terraform_roots_iff (w : World) (p : Path) :
  (result_of (is_under_terraform_roots fs_stat p w) = inr true <->
     fs_stat w (str p) = Found /\ suffix p = ".tf" /\
     under_configured_prefix (as_posix p)) /\
  (result_of (is_under_terraform_roots fs_stat p w) = inr false <->
     fs_stat w (str p) = Absent \/
     (fs_stat w (str p) = Found /\
      (suffix p <> ".tf" \/ ~ under_configured_prefix (as_posix p)))) /\
  (result_of (is_under_terraform_roots fs_stat p w) = inl OSError <->
     fs_stat w (str p) = StatError) /\
  world_of (is_under_terraform_roots fs_stat p w) = w /\
  trace_of (is_under_terraform_roots fs_stat p w) = [].
Proof.
  split; [apply under_roots_true|]. split; [apply under_roots_false|].
  split; [|rewrite is_under_run; split; reflexivity].
  rewrite <- under_roots_raises. split; [eauto|].
  intros [e H]. rewrite H. now destruct e; [rewrite is_under_run in H;
    cbn [result_of fst] in H; destruct (fs_stat w (str p)); discriminate|].
Qed.

(** A string that starts with the separator parses to an absolute path. *)
Lemma Path_of_absolute (rest : string) :
  root (Path_of (String sep rest)) = "/" \/ root (Path_of (String sep rest)) = "//".
Proof.
  unfold Path_of. cbn [String.eqb Ascii.eqb].
  destruct rest as [|c1 [|c2 rest]]; cbn; auto;
    repeat match goal with
    | |- context [if Ascii.eqb ?a ?b then _ else _] => destruct (Ascii.eqb a b); cbn
    end; auto.
Qed.

(** The string form of an absolute path begins with the separator. *)
Lemma as_posix_absolute (s : string) :
  startswith s "/" = true -> startswith (as_posix (Path_of s)) "/" = true.
Proof.
  intros H. apply startswith_spec in H as [rest ->].
  change ("/" ++ rest)%string with (String sep rest).
  unfold as_posix, str.
  destruct (Path_of_absolute rest) as [-> | ->]; cbn;
    first [reflexivity | apply startswith_spec; eexists; reflexivity].
Qed.

Lemma absolute_not_under_prefix (s : string) :
  startswith s "/" = true -> ~ under_configured_prefix (as_posix (Path_of s)).
Proof.
  intros H. apply as_posix_absolute, startswith_spec in H as [rest E].
  rewrite E. intros [H|H]; discriminate H.
Qed.

(** C8, as amended: an absolute path never qualifies, whatever the
    filesystem holds, because its forward-slash form starts with the
    separator and neither prefix does: the predicate returns [False] on it,
    unless [stat] fails on the path for another reason than absence, and
    then it raises [OSError]. *)
Theorem absolute_path_never_qualifies (w : World) (s : string) :
  startswith s "/" = true ->
  startswith (as_posix (Path_of s)) "/" = true /\
  result_of (is_under_terraform_roots fs_stat (Path_of s) w) <> inr true /\
  (fs_stat w (str (Path_of s)) <> StatError ->
   result_of (is_under_terraform_roots fs_stat (Path_of s) w) = inr false) /\
  (fs_stat w (str (Path_of s)) = StatError ->
   result_of (is_under_terraform_roots fs_stat (Path_of s) w) = inl OSError).
Proof.
  intros H. split; [now apply as_posix_absolute|].
  pose proof (absolute_not_under_prefix s H) as Hn.
  split; [|split].
  - intros E. apply under_roots_true in E as (_ & _ & E). contradiction.
  - intros Hs. apply under_roots_false.
    destruct (fs_stat w (str (Path_of s))); [right|left|congruence]; auto.
  - intros Hs. rewrite is_under_run, Hs. reflexivity.
Qed.

End Predicate.

(** C1, as stated, fails: with the repository at [/repo], the absolute path
    [/repo/infra-ai-hub/a/x.tf] exists, has suffix [.tf] and, relative to
    the root, starts with [infra-ai-hub/]; the script rejects it. *)
Lemma qualify_ignores_root :
  let ROOT := Path_of "/repo" in
  let p := Path_of "/repo/infra-ai-hub/a/x.tf" in
  ~ (result_of (is_under_terraform_roots all_exist p 0) = inr true <->
     qualifies_by_spec all_exist ROOT 0 p).
Proof.
  intros ROOT p [_ H].
  assert (Hq : qualifies_by_spec all_exist ROOT 0 p).
  { split; [reflexivity|]. split; [reflexivity|].
    exists (Path_of "infra-ai-hub/a/x.tf"). split; [reflexivity|].
    right. reflexivity. }
  apply H in Hq. vm_compute in Hq. discriminate.
Qed.

(** C8, as stated, fails: where names hold at most 255 characters, the
    predicate does not return [False] on the absolute path of a file with a
    longer name: [stat] fails and the predicate raises. *)
Lemma absolute_path_may_raise :
  let s := long_name "/repo/infra-ai-hub/" ".tf" in
  startswith s "/" = true /\
  result_of (is_under_terraform_roots name_max (Path_of s) 0) <> inr false.
Proof.
  intros s. split; [reflexivity|]. intros H. vm_compute in H. discriminate H.
Qed.

(** A concrete absolute path under a Terraform root. *)
Lemma absolute_path_never_qualifies_witness :
  startswith "/repo/infra-ai-hub/a/x.tf" "/" = true /\
  result_of (is_under_terraform_roots all_exist (Path_of "/repo/infra-ai-hub/a/x.tf") 0)
  = inr false.
Proof.
  split; [reflexivity|].
  apply (absolute_path_never_qualifies all_exist 0 "/repo/infra-ai-hub/a/x.tf" eq_refl).
  discriminate.
Defined.

End Qualify.

(* ================================================================== *)
(** * The work directories *)

Module Workdirs.

Import Str StrFacts Pathlib PathFacts SortFacts Effects TerraformLint Spec.

Section Directories.

Variable ROOT : Path.
Hypothesis ROOT_wf : wf ROOT = true.

#[local] Abbreviation workdir := (workdir ROOT).


Lemma get_tflint_workdirs_unfold (files : list Path) :
  get_tflint_workdirs ROOT files = sorted (set_of (map workdir files)).
Proof. reflexivity. Qed.

Lemma wf_workdir (f : Path) : wf f = true -> wf (workdir f) = true.
Proof. intros H. now apply wf_parent, wf_truediv. Qed.

Lemma wf_workdirs (files : list Path) :
  forallb wf files = true -> forallb wf (map workdir files) = true.
Proof.
  rewrite !forallb_forall. intros H d Hd.
  apply in_map_iff in Hd as (f & <- & Hf). now apply wf_workdir, H.
Qed.

(** Under the root, a relative path with components keeps them all. *)
Lemma truediv_relative (r : list string) :
  ROOT // from_parsed_parts "" r = from_parsed_parts (root ROOT) (tail ROOT ++ r).
Proof. reflexivity. Qed.

Lemma parent_app (r : string) (t u : list string) :
  u <> [] ->
  parent (from_parsed_parts r (t ++ u)) = from_parsed_parts r (t ++ removelast u).
Proof.
  intros Hu. unfold parent. cbn [tail root].
  destruct (t ++ u) as [|x l] eqn:E.
  - apply app_eq_nil in E as [_ E]. congruence.
  - rewrite <- E. now rewrite removelast_app.
Qed.

(** The work directory of a relative file is the root joined with the
    parent of the file. *)
Lemma workdir_relative (f : Path) :
  is_absolute f = false -> tail f <> [] ->
  workdir f = ROOT // parent f /\
  workdir f = from_parsed_parts (root ROOT) (tail ROOT ++ removelast (tail f)).
Proof.
  intros Hrel Hne. destruct f as [r t]. cbn [tail] in Hne.
  unfold is_absolute in Hrel. cbn [root] in Hrel.
  apply negb_false_iff, String.eqb_eq in Hrel. subst r.
  unfold workdir. rewrite truediv_relative, parent_app by exact Hne.
  destruct t as [|x t]; [congruence|]. auto.
Qed.

Lemma fields_app (r : string) (t u : list string) :
  u <> [] -> fields (from_parsed_parts r (t ++ u)) = root_fields r ++ t ++ u.
Proof.
  intros Hu. unfold fields. cbn [tail root].
  destruct (t ++ u) as [|x l] eqn:E; [|reflexivity].
  apply app_eq_nil in E as [_ E]. congruence.
Qed.

(** Below a common root, paths are ordered as their remaining components. *)
Lemma path_ltb_under_root (u v : list string) :
  u <> [] -> v <> [] ->
  forallb part_ok u = true -> forallb part_ok v = true ->
  path_ltb (from_parsed_parts (root ROOT) (tail ROOT ++ u))
           (from_parsed_parts (root ROOT) (tail ROOT ++ v)) =
  match list_compare String_as_OT.compare u v with Lt => true | _ => false end.
Proof.
  intros Hu Hv Hpu Hpv.
  apply andb_true_iff in ROOT_wf as [Hr Ht].
  unfold path_ltb.
  rewrite !parts_normcase_wf, !fields_app by
    (try assumption; unfold wf; cbn [root tail]; rewrite Hr, forallb_app, Ht; assumption).
  now rewrite !(list_compare_app _ cmp_eq).
Qed.

(** The result is strictly sorted and holds the work directory of each
    file once. *)
Lemma get_tflint_workdirs_sorted (files : list Path) :
  StronglySorted path_lt (get_tflint_workdirs ROOT files).
Proof. apply sorted_sorted, set_of_NoDup. Qed.

Lemma get_tflint_workdirs_NoDup (files : list Path) :
  NoDup (get_tflint_workdirs ROOT files).
Proof.
  apply NoDup_str.
  apply (Permutation_NoDup (l := map str (set_of (map workdir files)))).
  - apply Permutation_map. symmetry. apply sorted_perm.
  - apply set_of_NoDup.
Qed.

Lemma get_tflint_workdirs_incl (files : list Path) (d : Path) :
  In d (get_tflint_workdirs ROOT files) -> exists f, In f files /\ d = workdir f.
Proof.
  rewrite get_tflint_workdirs_unfold, sorted_In. intros H.
  apply set_of_incl, in_map_iff in H as (f & E & Hf). eauto.
Qed.

Lemma get_tflint_workdirs_In (files : list Path) (d : Path) :
  forallb wf files = true ->
  (In d (get_tflint_workdirs ROOT files) <-> In d (map workdir files)).
Proof.
  intros H. rewrite get_tflint_workdirs_unfold, sorted_In.
  apply set_of_In. now apply wf_workdirs.
Qed.

Lemma get_tflint_workdirs_perm (l1 l2 : list Path) :
  forallb wf l1 = true -> Permutation l1 l2 ->
  get_tflint_workdirs ROOT l1 = get_tflint_workdirs ROOT l2.
Proof.
  intros Hwf Hp. rewrite !get_tflint_workdirs_unfold.
  apply sorted_set_of_perm; [now apply wf_workdirs|now apply Permutation_map].
Qed.


Lemma example_workdirs :
  map workdir
    (map Path_of ["infra-ai-hub/a/x.tf"; "infra-ai-hub/a/y.tf"; "initial-setup/infra/b/z.tf"])
  = [ROOT // Path_of "infra-ai-hub/a"; ROOT // Path_of "infra-ai-hub/a";
     ROOT // Path_of "initial-setup/infra/b"].
Proof.
  assert (H : forall f, is_absolute f = false ->
                match tail f with [] => false | _ => true end = true ->
                workdir f = ROOT // parent f).
  { intros f Hrel Hne. apply workdir_relative; [exact Hrel|].
    destruct (tail f); [discriminate Hne|discriminate]. }
  cbn [map]. rewrite 3 H by reflexivity. reflexivity.
Qed.

Lemma example_dirs_sorted :
  StronglySorted path_lt
    [ROOT // Path_of "infra-ai-hub/a"; ROOT // Path_of "initial-setup/infra/b"].
Proof.
  repeat constructor.
  unfold path_lt. change (Path_of "infra-ai-hub/a") with (from_parsed_parts "" ["infra-ai-hub"; "a"]).
  change (Path_of "initial-setup/infra/b")
    with (from_parsed_parts "" ["initial-setup"; "infra"; "b"]).
  rewrite !truediv_relative.
  rewrite path_ltb_under_root by (discriminate || reflexivity).
  reflexivity.
Qed.

(** C3: on the three example files, in whatever order they are given, the
    result is the list of the two distinct parent directories
    [infra-ai-hub/a] and [initial-setup/infra/b] (each resolved against the
    repository root), in that order; and on every list of files the result
    does not depend on the order of the list. *)
Theorem get_tflint_workdirs_example :
  (forall files,
     Permutation files
       (map Path_of ["infra-ai-hub/a/x.tf"; "infra-ai-hub/a/y.tf";
                     "initial-setup/infra/b/z.tf"]) ->
     get_tflint_workdirs ROOT files =
       [ROOT // Path_of "infra-ai-hub/a"; ROOT // Path_of "initial-setup/infra/b"]) /\
  (forall l1 l2, forallb wf l1 = true -> Permutation l1 l2 ->
     get_tflint_workdirs ROOT l1 = get_tflint_workdirs ROOT l2).
Proof.
  split; [|exact get_tflint_workdirs_perm].
  intros files Hp.
  rewrite <- (get_tflint_workdirs_perm
                (map Path_of ["infra-ai-hub/a/x.tf"; "infra-ai-hub/a/y.tf";
                              "initial-setup/infra/b/z.tf"]) files)
    by (reflexivity || now symmetry).
  apply sorted_unique.
  - apply get_tflint_workdirs_sorted.
  - apply example_dirs_sorted.
  - intros d. rewrite get_tflint_workdirs_In by reflexivity.
    rewrite example_workdirs. simpl. tauto.
Qed.

End Directories.

(** The example with the repository at [/srv/repo]. *)
Lemma get_tflint_workdirs_example_witness :
  wf (Path_of "/srv/repo") = true /\
  get_tflint_workdirs (Path_of "/srv/repo")
    (map Path_of ["initial-setup/infra/b/z.tf"; "infra-ai-hub/a/y.tf"; "infra-ai-hub/a/x.tf"])
  = [Path_of "/srv/repo/infra-ai-hub/a"; Path_of "/srv/repo/initial-setup/infra/b"].
Proof.
  split; [reflexivity|].
  apply (proj1 (get_tflint_workdirs_example (Path_of "/srv/repo") eq_refl)).
  cbn [map]. apply Permutation_rev with (l := [_; _; _]).
Defined.

End Workdirs.

(* ================================================================== *)
(** * Runs of [main] *)

Module Run.

Import Str StrFacts Pathlib PathFacts SortFacts Effects TerraformLint Spec.
Import Qualify.

Local Open Scope lint_scope.

Section Runs.

Context {World : Type}.
Variable fs_stat : World -> string -> Stat.
Variable spawn : World -> Invocation -> Outcome * World.
Variable ROOT : Path.

#[local] Abbreviation fmt_check := (fmt_check ROOT).
#[local] Abbreviation plan := (plan ROOT).
#[local] Abbreviation replay := (replay spawn).
#[local] Abbreviation world_after := (world_after spawn).
#[local] Abbreviation exec := (exec spawn).
#[local] Abbreviation files_of := (changed_files_of fs_stat).


Lemma run_command_spec (cmd : list string) (d : option Path) (w : World) :
  run_command spawn ROOT cmd d w = exec [invocation cmd (cwd_or_ROOT ROOT d)] w.
Proof.
  unfold run_command, bind, subprocess_run. simpl.
  destruct (spawn w _) as [[rc|] w1]; [|reflexivity].
  destruct (Z.eqb rc 0); reflexivity.
Qed.

Lemma exec_cons (i : Invocation) (l : list Invocation) (w : World) :
  exec (i :: l) w =
  match exec [i] w with
  | (inr _, w1, t1) => let '(r, w2, t2) := exec l w1 in (r, w2, t1 ++ t2)
  | (inl e, w1, t1) => (inl e, w1, t1)
  end.
Proof.
  simpl. destruct (spawn w i) as [[rc|] w1]; [|reflexivity].
  destruct (Z.eqb rc 0); [|reflexivity].
  destruct (exec l w1) as [[r w2] t]. reflexivity.
Qed.

Lemma exec_app (l1 l2 : list Invocation) (w : World) :
  exec (l1 ++ l2) w =
  match exec l1 w with
  | (inr _, w1, t1) => let '(r, w2, t2) := exec l2 w1 in (r, w2, t1 ++ t2)
  | (inl e, w1, t1) => (inl e, w1, t1)
  end.
Proof.
  revert w. induction l1 as [|i l1 IH]; intros w.
  - simpl. destruct (exec l2 w) as [[r w2] t2]. reflexivity.
  - simpl. destruct (spawn w i) as [[rc|] w1]; [|reflexivity].
    destruct (Z.eqb rc 0); [|reflexivity].
    rewrite IH. destruct (exec l1 w1) as [[[e|[]] w2] t1]; [reflexivity|].
    destruct (exec l2 w2) as [[r w3] t2]. reflexivity.
Qed.

(** The first loop of [main]. *)
Lemma for_each_fmt (files : list Path) (w : World) :
  for_each files (fun terraform_file =>
    run_command spawn ROOT
      ["terraform"; "fmt"; "-check"; "-diff"; str (ROOT // terraform_file)] None) w
  = exec (map fmt_check files) w.
Proof.
  revert w. induction files as [|f files IH]; intros w; [reflexivity|].
  cbn [for_each map]. unfold bind at 1.
  rewrite run_command_spec, (exec_cons (fmt_check f) (map fmt_check files)).
  change (invocation _ (cwd_or_ROOT ROOT None)) with (fmt_check f).
  destruct (exec [fmt_check f] w) as [[[e|[]] w1] t1]; [reflexivity|].
  now rewrite IH.
Qed.

(** The second loop of [main]. *)
Lemma for_each_lint (dirs : list Path) (w : World) :
  for_each dirs (fun terraform_workdir =>
    run_command spawn ROOT ["tflint"; "--init"] (Some terraform_workdir) ;;
    run_command spawn ROOT ["tflint"; "--minimum-failure-severity=error"]
      (Some terraform_workdir)) w
  = exec (lint_steps dirs) w.
Proof.
  revert w. induction dirs as [|d dirs IH]; intros w; [reflexivity|].
  cbn [for_each lint_steps flat_map]. unfold bind at 1 2.
  rewrite run_command_spec.
  change (invocation _ (cwd_or_ROOT ROOT (Some d))) with (lint_init d).
  change ([lint_init d; lint_check d] ++ flat_map (fun d => [lint_init d; lint_check d]) dirs)
    with (lint_init d :: lint_check d :: lint_steps dirs).
  rewrite (exec_cons (lint_init d) (lint_check d :: lint_steps dirs)).
  destruct (exec [lint_init d] w) as [[[e|[]] w1] t1]; [reflexivity|].
  rewrite run_command_spec.
  change (invocation _ (cwd_or_ROOT ROOT (Some d))) with (lint_check d).
  rewrite (exec_cons (lint_check d) (lint_steps dirs)).
  destruct (exec [lint_check d] w1) as [[[e|[]] w2] t2]; [reflexivity|].
  rewrite IH. destruct (exec (lint_steps dirs) w2) as [[r w3] t3].
  now rewrite app_assoc.
Qed.

(** The body of the [try] statement runs the plan. *)
Lemma checks_exec (files : list Path) (w : World) :
  checks spawn ROOT files w =
  match exec (plan files) w with
  | (inr _, w', t) => (inr None, w', t)
  | (inl e, w', t) => (inl e, w', t)
  end.
Proof.
  unfold checks, plan. unfold bind at 1.
  rewrite for_each_fmt, exec_app.
  destruct (exec (map fmt_check files) w) as [[[e|[]] w1] t1]; [reflexivity|].
  unfold bind. rewrite for_each_lint.
  destruct (exec (lint_steps _) w1) as [[[e|[]] w2] t2]; [reflexivity|].
  simpl. now rewrite app_nil_r.
Qed.

(** The list comprehension, in one equation: it raises when [stat] fails on
    an argument, and otherwise keeps the arguments on which the predicate
    returns [True], in order; it changes nothing and runs nothing. *)
Lemma comprehension_run (args : list string) (w : World) :
  comprehension fs_stat args w =
  (if existsb (fun s => match fs_stat w (str (Path_of s)) with
                        | StatError => true
                        | _ => false
                        end) args
   then inl OSError
   else inr (map Path_of (filter (fun s => qualifies fs_stat w (Path_of s)) args)),
   w, []).
Proof.
  induction args as [|s args IH]; [reflexivity|].
  cbn [comprehension existsb filter]. unfold bind at 1.
  unfold qualifies at 1. rewrite Qualify.is_under_run.
  destruct (fs_stat w (str (Path_of s))); cbn [orb result_of fst]; try reflexivity.
  - unfold bind. rewrite IH. destruct (existsb _ args); [reflexivity|].
    cbn [ret app]. destruct (_ && _); reflexivity.
  - unfold bind. rewrite IH. destruct (existsb _ args); reflexivity.
Qed.

Lemma changed_files_run (argv : list string) (w : World) :
  changed_files fs_stat argv w =
  (if stat_fails fs_stat w argv then inl OSError
   else inr (map Path_of (filter (fun s => qualifies fs_stat w (Path_of s)) (tl argv))),
   w, []).
Proof. apply comprehension_run. Qed.

Lemma files_of_filter (argv : list string) (w : World) :
  files_of w argv =
  if stat_fails fs_stat w argv then []
  else map Path_of (filter (fun s => qualifies fs_stat w (Path_of s)) (tl argv)).
Proof.
  unfold changed_files_of. rewrite changed_files_run.
  now destruct (stat_fails fs_stat w argv).
Qed.

(** [main], in one equation. *)
Lemma main_exec (argv : list string) (w : World) :
  main fs_stat spawn ROOT argv w =
  if stat_fails fs_stat w argv then (inl OSError, w, [])
  else
    match files_of w argv with
    | [] => (inr 0%Z, w, [])
    | files =>
        match exec (plan files) w with
        | (inr _, w', t) => (inr 0%Z, w', t)
        | (inl RuntimeError, w', t) => (inr 1%Z, w', t)
        | (inl OSError, w', t) => (inl OSError, w', t)
        end
    end.
Proof.
  unfold main, bind at 1. unfold changed_files_of. rewrite changed_files_run.
  destruct (stat_fails fs_stat w argv); [reflexivity|]. cbn [result_of fst].
  destruct (map Path_of _) as [|f files]; [reflexivity|].
  unfold bind, except_RuntimeError. rewrite checks_exec.
  destruct (Spec.exec spawn (plan (f :: files)) w) as [[[[|]|[]] w'] t]; simpl;
    rewrite ?app_nil_r; reflexivity.
Qed.

(** ** Traces *)

Lemma replay_invoked (w : World) (l : list Invocation) : map invoked (replay w l) = l.
Proof.
  revert w. induction l as [|i l IH]; intros w; simpl; [reflexivity|].
  destruct (spawn w i) as [o w1]. simpl. now rewrite IH.
Qed.

Lemma replay_app (w : World) (l1 l2 : list Invocation) :
  replay w (l1 ++ l2) = replay w l1 ++ replay (world_after w l1) l2.
Proof.
  revert w. induction l1 as [|i l1 IH]; intros w; simpl; [reflexivity|].
  destruct (spawn w i) as [o w1] eqn:E. simpl. now rewrite IH.
Qed.

Lemma upto_failure_prefix (t : list Event) : exists rest, t = upto_failure t ++ rest.
Proof.
  induction t as [|e t [rest IH]]; simpl; [now exists []|].
  destruct (succeeded e).
  - exists rest. simpl. now rewrite <- IH.
  - now exists t.
Qed.

Lemma upto_failure_all (t : list Event) :
  forallb succeeded (upto_failure t) = true -> upto_failure t = t.
Proof.
  induction t as [|e t IH]; simpl; [reflexivity|].
  destruct (succeeded e) eqn:E; simpl; rewrite E; simpl; [|discriminate].
  intros H. now rewrite IH.
Qed.

(** Nothing follows a failure, and everything before it succeeded. *)
Lemma upto_failure_split (t t1 t2 : list Event) (e : Event) :
  upto_failure t = t1 ++ e :: t2 ->
  forallb succeeded t1 = true /\ (failed e = true -> t2 = []).
Proof.
  revert t1. induction t as [|a t IH]; intros t1; simpl.
  - destruct t1; discriminate.
  - destruct (succeeded a) eqn:E.
    + destruct t1 as [|b t1]; simpl; intros H; injection H as <- H.
      * split; [reflexivity|]. unfold failed. rewrite E. discriminate.
      * rewrite E. simpl. now apply IH.
    + destruct t1 as [|b t1]; simpl; intros H; injection H as <- H.
      * now subst t2.
      * destruct t1; discriminate.
Qed.

Lemma upto_failure_app (t1 t2 : list Event) :
  upto_failure (t1 ++ t2) =
  if forallb succeeded t1 then t1 ++ upto_failure t2 else upto_failure t1.
Proof.
  induction t1 as [|e t1 IH]; simpl; [reflexivity|].
  destruct (succeeded e); simpl; [|reflexivity].
  rewrite IH. now destruct (forallb succeeded t1).
Qed.

Lemma verdict_ok (t : list Event) :
  verdict t = inr tt <-> forallb succeeded t = true.
Proof.
  unfold verdict. induction t as [|e t IH]; simpl; [tauto|].
  destruct (failed e) eqn:F; unfold failed in F;
    destruct (succeeded e) eqn:E; try discriminate F; simpl; [|exact IH].
  split; [|discriminate]. destruct (outcome e); discriminate.
Qed.

Lemma verdict_failure (t : list Event) :
  forallb succeeded t = false ->
  exists e, In e t /\ failed e = true /\
            verdict t = match outcome e with
                        | NotStarted => inl OSError
                        | Exited _ => inl RuntimeError
                        end.
Proof.
  unfold verdict. induction t as [|e t IH]; simpl; [discriminate|].
  destruct (failed e) eqn:F; unfold failed in F;
    destruct (succeeded e) eqn:E; try discriminate F; simpl.
  - intros _. exists e. unfold failed. rewrite E. auto.
  - intros H. destruct (IH H) as (e' & Hin & Hf & Hv).
    exists e'. repeat split; [now right|exact Hf|exact Hv].
Qed.

Lemma forallb_existsb_failed (t : list Event) :
  existsb failed t = negb (forallb succeeded t).
Proof.
  induction t as [|e t IH]; simpl; [reflexivity|].
  unfold failed at 1. rewrite IH. now destruct (succeeded e), (forallb succeeded t).
Qed.

Lemma verdict_cons (e : Event) (t : list Event) :
  succeeded e = true -> verdict (e :: t) = verdict t.
Proof. intros H. unfold verdict. cbn [find]. unfold failed at 1. now rewrite H. Qed.

Lemma world_after_cons (w w1 : World) (i : Invocation) (o : Outcome) (l : list Invocation) :
  spawn w i = (o, w1) -> world_after w (i :: l) = world_after w1 l.
Proof. intros E. unfold world_after. cbn [fold_left]. now rewrite E. Qed.

(** [exec] makes the invocations of its list up to the first failure. *)
Lemma exec_replay (l : list Invocation) (w : World) :
  let t := upto_failure (replay w l) in
  exec l w = (verdict t, world_after w (map invoked t), t).
Proof.
  revert w. induction l as [|i l IH]; intros w; [reflexivity|].
  cbn [exec replay].
  destruct (spawn w i) as [o w1] eqn:E.
  pose proof (fun l' => world_after_cons w w1 i o l' E) as Hw.
  cbn [upto_failure].
  destruct o as [rc|].
  - change (succeeded (event i (Exited rc))) with (Z.eqb rc 0).
    destruct (Z.eqb rc 0) eqn:Hrc.
    + rewrite IH. cbn [map invoked]. rewrite Hw, verdict_cons; [reflexivity|exact Hrc].
    + cbn [map invoked]. rewrite Hw. unfold verdict. cbn [find].
      change (failed (event i (Exited rc))) with (negb (Z.eqb rc 0)).
      now rewrite Hrc.
  - change (succeeded (event i NotStarted)) with false.
    cbn [map invoked]. rewrite Hw. reflexivity.
Qed.

(** The trace, the final world and the result of a run of [main]. *)
Lemma main_run (argv : list string) (w : World) :
  let t := upto_failure (replay w (plan (files_of w argv))) in
  trace_of (main fs_stat spawn ROOT argv w) = t /\
  world_of (main fs_stat spawn ROOT argv w) = world_after w (map invoked t) /\
  result_of (main fs_stat spawn ROOT argv w) =
    if stat_fails fs_stat w argv then inl OSError
    else match verdict t with
         | inr _ => inr 0%Z
         | inl RuntimeError => inr 1%Z
         | inl OSError => inl OSError
         end.
Proof.
  rewrite main_exec, files_of_filter.
  destruct (stat_fails fs_stat w argv); [now cbn|].
  destruct (map Path_of _) as [|f files] eqn:E; [now cbn|].
  rewrite exec_replay. cbv zeta.
  destruct (verdict _) as [[|]|[]]; now cbn.
Qed.

(** When [stat] fails on an argument nothing is run and [main] raises. *)
Lemma main_raises (argv : list string) (w : World) :
  stat_fails fs_stat w argv = true ->
  main fs_stat spawn ROOT argv w = (inl OSError, w, []).
Proof. intros H. now rewrite main_exec, H. Qed.

Lemma exit_status_run (argv : list string) (w : World) :
  exit_status fs_stat spawn ROOT argv w =
  if stat_fails fs_stat w argv then 1%Z
  else if forallb succeeded (trace_of (main fs_stat spawn ROOT argv w)) then 0%Z else 1%Z.
Proof.
  unfold exit_status.
  destruct (main_run argv w) as (Ht & _ & Hr). rewrite Hr, Ht.
  destruct (stat_fails fs_stat w argv); [reflexivity|].
  destruct (forallb succeeded _) eqn:E.
  - apply verdict_ok in E. now rewrite E.
  - apply verdict_failure in E as (e & _ & _ & ->). now destruct (outcome e).
Qed.

(** A cut trace is all successes, or successes and then one failure. *)
Lemma upto_failure_cases (X : list Event) :
  (forallb succeeded (upto_failure X) = true /\ verdict (upto_failure X) = inr tt) \/
  (exists t1 e,
     upto_failure X = t1 ++ [e] /\ forallb succeeded t1 = true /\ succeeded e = false /\
     verdict (upto_failure X) = match outcome e with
                                | NotStarted => inl OSError
                                | Exited _ => inl RuntimeError
                                end).
Proof.
  induction X as [|a X IH]; [now left|]. cbn [upto_failure].
  destruct (succeeded a) eqn:Ha.
  - destruct IH as [[H1 H2]|(t1 & e & E & H1 & H2 & H3)].
    + left. split; [simpl; now rewrite Ha, H1|now rewrite verdict_cons].
    + right. exists (a :: t1), e. rewrite E. repeat split; try assumption.
      * simpl. now rewrite Ha, H1.
      * rewrite <- E, verdict_cons by exact Ha. exact H3.
  - right. exists [], a. repeat split; try assumption.
    unfold verdict. cbn [find]. unfold failed. now rewrite Ha.
Qed.

Lemma stat_fails_spec (argv : list string) (w : World) :
  stat_fails fs_stat w argv = true <->
  exists s, In s (tl argv) /\ fs_stat w (str (Path_of s)) = StatError.
Proof.
  unfold stat_fails. rewrite existsb_exists.
  split; intros (s & Hs & H); exists s; split; try exact Hs.
  - now destruct (fs_stat w (str (Path_of s))).
  - now rewrite H.
Qed.

Lemma stat_fails_false (argv : list string) (w : World) :
  stat_fails fs_stat w argv = false <->
  forall s, In s (tl argv) -> fs_stat w (str (Path_of s)) <> StatError.
Proof.
  rewrite <- not_true_iff_false, stat_fails_spec. split.
  - intros H s Hs E. apply H. now exists s.
  - intros H (s & Hs & E). now apply (H s).
Qed.

(** How a run of [main] ends. *)
Lemma main_result (argv : list string) (w : World) :
  let t := trace_of (main fs_stat spawn ROOT argv w) in
  let r := result_of (main fs_stat spawn ROOT argv w) in
  (r = inr 0%Z <-> stat_fails fs_stat w argv = false /\ forallb succeeded t = true) /\
  (r = inr 1%Z <->
     exists t1 e rc, t = t1 ++ [e] /\ outcome e = Exited rc /\ rc <> 0%Z) /\
  (r = inl OSError <->
     stat_fails fs_stat w argv = true \/
     exists t1 e, t = t1 ++ [e] /\ outcome e = NotStarted) /\
  r <> inl RuntimeError.
Proof.
  cbv zeta. destruct (stat_fails fs_stat w argv) eqn:Hs.
  - rewrite (main_raises argv w Hs). cbn [result_of trace_of fst snd].
    repeat split; try discriminate; auto.
    + intros [H _]. discriminate.
    + intros (t1 & e & rc & E & _). destruct t1; discriminate.
  - destruct (main_run argv w) as (Ht & _ & Hr). rewrite Hr, Ht, Hs. clear Hr Ht.
    destruct (upto_failure_cases (replay w (plan (files_of w argv))))
      as [[H1 H2]|(t1 & e & E & H1 & H2 & H3)].
    + rewrite H2, H1. repeat split; try discriminate; auto.
      * intros (t1 & e & rc & E & Ho & Hrc). exfalso.
        rewrite E, forallb_app in H1. apply andb_true_iff in H1 as [_ H1].
        simpl in H1. unfold succeeded in H1. rewrite Ho in H1.
        rewrite andb_true_r in H1. apply Z.eqb_eq in H1. contradiction.
      * intros [H|(t1 & e & E & Ho)]; [discriminate|]. exfalso.
        rewrite E, forallb_app in H1. apply andb_true_iff in H1 as [_ H1].
        simpl in H1. unfold succeeded in H1. now rewrite Ho in H1.
    + rewrite H3, E, forallb_app. simpl. rewrite H2, andb_false_r.
      unfold succeeded in H2.
      destruct (outcome e) as [rc|] eqn:Ho.
      * repeat split; try discriminate.
        -- intros [_ H]. discriminate.
        -- intros _. exists t1, e, rc. repeat split; try assumption.
           intros ->. discriminate H2.
        -- intros [H|(t1' & e' & E' & Ho')]; [discriminate|].
           apply app_inj_tail in E' as [_ <-]. congruence.
      * repeat split; try discriminate.
        -- intros [_ H]. discriminate.
        -- intros (t1' & e' & rc & E' & Ho' & _). apply app_inj_tail in E' as [_ <-].
           congruence.
        -- intros _. right. now exists t1, e.
Qed.

End Runs.

End Run.

(* ================================================================== *)
(** * What a run of the script does *)

Module Behaviour.

Import Str StrFacts Pathlib PathFacts SortFacts Effects TerraformLint Spec Qualify Workdirs Run.

Section Script.

Context {World : Type}.
Variable fs_stat : World -> string -> Stat.
Variable spawn : World -> Invocation -> Outcome * World.
Variable ROOT : Path.

#[local] Abbreviation main := (main fs_stat spawn ROOT).
#[local] Abbreviation exit_status := (exit_status fs_stat spawn ROOT).
#[local] Abbreviation invocations := (invocations fs_stat spawn ROOT).
#[local] Abbreviation files_of := (changed_files_of fs_stat).
#[local] Abbreviation plan := (plan ROOT).
#[local] Abbreviation replay := (replay spawn).
#[local] Abbreviation world_after := (world_after spawn).

(** ** The changed files *)


(** What is known of each changed file. *)
Lemma changed_files_spec (argv : list string) (w : World) (f : Path) :
  In f (files_of w argv) ->
  wf f = true /\ is_absolute f = false /\ tail f <> [] /\
  qualifies fs_stat w f = true /\ stat_fails fs_stat w argv = false.
Proof.
  rewrite files_of_filter. destruct (stat_fails fs_stat w argv); [intros []|].
  rewrite in_map_iff. intros (s & <- & Hs). apply filter_In in Hs as [_ Hq].
  split; [apply wf_Path_of|].
  destruct (qualifying_relative fs_stat w s Hq) as [H1 H2]. auto.
Qed.

Lemma changed_files_wf (argv : list string) (w : World) :
  forallb wf (files_of w argv) = true.
Proof.
  apply forallb_forall. intros f Hf. now apply changed_files_spec in Hf.
Qed.

Lemma map_filter_comm {A B : Type} (f : A -> B) (g : B -> bool) (l : list A) :
  map f (filter (fun x => g (f x)) l) = filter g (map f l).
Proof.
  induction l as [|x l IH]; [reflexivity|]. simpl.
  destruct (g (f x)); simpl; now rewrite IH.
Qed.

Lemma files_of_nil (argv : list string) (w : World) :
  (forall s, In s (tl argv) -> qualifies fs_stat w (Path_of s) = false) ->
  files_of w argv = [].
Proof.
  intros H. rewrite files_of_filter. destruct (stat_fails fs_stat w argv); [reflexivity|].
  induction (tl argv) as [|s l IH]; [reflexivity|]. simpl.
  rewrite (H s (or_introl eq_refl)). apply IH. intros s' Hs'. apply H. now right.
Qed.

Lemma trace_without_files (argv : list string) (w : World) :
  files_of w argv = [] ->
  trace_of (main argv w) = [] /\ world_of (main argv w) = w.
Proof.
  intros H. destruct (main_run fs_stat spawn ROOT argv w) as (Ht & Hw & _).
  rewrite H in Ht, Hw. split; [exact Ht|exact Hw].
Qed.

(** C4, as amended: when the argument list is empty, or none of its paths
    qualifies (because it is not there, is not a [.tf] file or lies outside
    the two roots), [main] makes no invocation and leaves the world as it
    found it; it returns 0 when [stat] fails on none of the arguments, and
    when [stat] fails on one of them it raises [OSError] instead, so that
    the process exits with status 1. *)
Theorem main_without_qualifying_files (argv : list string) (w : World) :
  (forall s, In s (tl argv) ->
     fs_stat w (str (Path_of s)) <> Found \/
     suffix (Path_of s) <> ".tf" \/
     ~ under_configured_prefix (as_posix (Path_of s))) ->
  invocations argv w = [] /\
  world_of (main argv w) = w /\
  ((forall s, In s (tl argv) -> fs_stat w (str (Path_of s)) <> StatError) ->
   main argv w = (inr 0%Z, w, [])) /\
  ((exists s, In s (tl argv) /\ fs_stat w (str (Path_of s)) = StatError) ->
   main argv w = (inl OSError, w, []) /\ exit_status argv w = 1%Z).
Proof.
  intros H.
  assert (Hnil : files_of w argv = []).
  { apply files_of_nil. intros s Hs. apply not_true_iff_false. intros Hq.
    apply qualifies_true, under_roots_true in Hq as (H1 & H2 & H3).
    destruct (H s Hs) as [H'|[H'|H']]; contradiction. }
  destruct (trace_without_files argv w Hnil) as [Ht Hw].
  split; [unfold TerraformLint.invocations; now rewrite Ht|]. split; [exact Hw|]. split.
  - intros Hs. apply stat_fails_false in Hs. now rewrite main_exec, Hs, Hnil.
  - intros Hs. apply stat_fails_spec in Hs.
    split; [now apply main_raises|]. now rewrite exit_status_run, Hs.
Qed.

(** C2, as amended: the exit status is 0 exactly when [stat] fails on no
    argument and there is no qualifying file or every invocation of the plan
    was made and succeeded, and it is 1 otherwise.  [main] returns 1 exactly
    when the last invocation ended with a non-zero return code (a negative
    one when a signal ended the process); when a process cannot be started,
    or [stat] fails on an argument, [main] does not return: the [OSError]
    leaves it, and the exit status is 1. *)
Theorem exit_codes (argv : list string) (w : World) :
  let t := trace_of (main argv w) in
  (exit_status argv w = 0%Z <->
     (forall s, In s (tl argv) -> fs_stat w (str (Path_of s)) <> StatError) /\
     (files_of w argv = [] \/
      (map invoked t = plan (files_of w argv) /\ forallb succeeded t = true))) /\
  (result_of (main argv w) = inr 1%Z <->
     exists t1 e rc, t = t1 ++ [e] /\ outcome e = Exited rc /\ rc <> 0%Z) /\
  (forall e, In e t ->
     outcome e = NotStarted \/ (exists rc, outcome e = Exited rc /\ rc <> 0%Z) ->
     exit_status argv w = 1%Z) /\
  (forall e, In e t -> outcome e = NotStarted ->
     result_of (main argv w) = inl OSError) /\
  ((exists s, In s (tl argv) /\ fs_stat w (str (Path_of s)) = StatError) ->
   result_of (main argv w) = inl OSError /\ t = [] /\ exit_status argv w = 1%Z) /\
  (exit_status argv w = 0%Z \/ exit_status argv w = 1%Z).
Proof.
  cbv zeta.
  destruct (main_result fs_stat spawn ROOT argv w) as (_ & Hone & Hraise & _).
  destruct (main_run fs_stat spawn ROOT argv w) as (Ht & _ & _).
  assert (Hfail : forall e, In e (trace_of (main argv w)) ->
            outcome e = NotStarted \/ (exists rc, outcome e = Exited rc /\ rc <> 0%Z) ->
            forallb succeeded (trace_of (main argv w)) = false).
  { intros e He Hf. apply not_true_iff_false. intros E.
    rewrite forallb_forall in E. specialize (E e He).
    unfold succeeded in E. destruct Hf as [Hf|(rc & Hf & Hrc)]; rewrite Hf in E.
    - discriminate.
    - apply Z.eqb_eq in E. contradiction. }
  split; [|split; [exact Hone|split; [|split; [|split]]]].
  - rewrite exit_status_run, <- stat_fails_false.
    destruct (stat_fails fs_stat w argv) eqn:Hs.
    + split; [discriminate|]. intros [H _]. discriminate.
    + destruct (forallb succeeded (trace_of (main argv w))) eqn:E.
      * split; [intros _|reflexivity]. split; [reflexivity|]. right.
        split; [|reflexivity].
        rewrite Ht in E |- *. rewrite (upto_failure_all _ E). apply replay_invoked.
      * split; [discriminate|]. intros [_ [Hnil|[_ H]]]; [|discriminate].
        destruct (trace_without_files argv w Hnil) as [Hnone _].
        rewrite Hnone in E. discriminate.
  - intros e He Hf. rewrite exit_status_run, (Hfail e He Hf).
    now destruct (stat_fails fs_stat w argv).
  - intros e He Ho. apply Hraise. right.
    assert (Hf : failed e = true) by (unfold failed, succeeded; now rewrite Ho).
    apply in_split in He as (t1 & t2 & E).
    rewrite E in Ht. symmetry in Ht.
    destruct (upto_failure_split _ _ _ _ Ht) as [_ H2]. rewrite (H2 Hf) in E.
    now exists t1, e.
  - intros Hs. apply stat_fails_spec in Hs.
    rewrite exit_status_run, Hs, (main_raises fs_stat spawn ROOT argv w Hs). auto.
  - rewrite exit_status_run. destruct (stat_fails fs_stat w argv); [now right|].
    destruct (forallb succeeded _); auto.
Qed.

(** C6: when an invocation of the run fails, it is the last one of the run
    and the exit status is 1; every invocation before it succeeded, and the
    world [main] leaves is the one these invocations and the failing one
    left: nothing is undone. *)
Theorem failure_stops_the_run (argv : list string) (w : World)
    (t1 t2 : list Event) (e : Event) :
  trace_of (main argv w) = t1 ++ e :: t2 ->
  failed e = true ->
  t2 = [] /\
  exit_status argv w = 1%Z /\
  forallb succeeded t1 = true /\
  world_of (main argv w) = world_after w (map invoked (t1 ++ [e])).
Proof.
  intros Ht Hf.
  destruct (main_run fs_stat spawn ROOT argv w) as (Hrun & Hw & _).
  rewrite Ht in Hrun. symmetry in Hrun.
  destruct (upto_failure_split _ _ _ _ Hrun) as [H1 H2].
  specialize (H2 Hf). subst t2.
  repeat split; [| exact H1 |].
  - rewrite exit_status_run, Ht, forallb_app. simpl.
    unfold failed in Hf. apply negb_true_iff in Hf. rewrite Hf.
    rewrite andb_false_r. now destruct (stat_fails fs_stat w argv).
  - now rewrite Hw, Hrun.
Qed.

(** ** Two runs in a row *)

Section Repeat.

(** The filesystem is unchanged: no invocation alters what [stat] answers. *)
Hypothesis fs_unchanged :
  forall w i s, fs_stat (snd (spawn w i)) s = fs_stat w s.

(** The behaviour of the tools is fixed: the outcome of an invocation does
    not depend on what was run before. *)
Hypothesis tools_fixed :
  forall w w' i, fst (spawn w i) = fst (spawn w' i).

Lemma fs_stat_after (w : World) (l : list Invocation) (s : string) :
  fs_stat (world_after w l) s = fs_stat w s.
Proof.
  revert w. induction l as [|i l IH]; intros w; [reflexivity|].
  unfold Spec.world_after in *. cbn [fold_left]. now rewrite IH, fs_unchanged.
Qed.

Lemma stat_fails_after (w : World) (l : list Invocation) (argv : list string) :
  stat_fails fs_stat (world_after w l) argv = stat_fails fs_stat w argv.
Proof.
  unfold stat_fails. induction (tl argv) as [|s args IH]; [reflexivity|].
  cbn [existsb]. now rewrite fs_stat_after, IH.
Qed.

Lemma files_of_after (w : World) (l : list Invocation) (argv : list string) :
  files_of (world_after w l) argv = files_of w argv.
Proof.
  rewrite !files_of_filter, stat_fails_after.
  destruct (stat_fails fs_stat w argv); [reflexivity|].
  f_equal. apply filter_ext. intros s.
  unfold qualifies. rewrite !is_under_run. now rewrite fs_stat_after.
Qed.

Lemma replay_any_world (w w' : World) (l : list Invocation) : replay w l = replay w' l.
Proof.
  revert w w'. induction l as [|i l IH]; intros w w'; [reflexivity|].
  cbn [Spec.replay]. pose proof (tools_fixed w w' i) as E.
  destruct (spawn w i) as [o w1], (spawn w' i) as [o' w1']. simpl in E. subst o'.
  now rewrite (IH w1 w1').
Qed.

(** C7: with an unchanged filesystem and fixed tool behaviour, running
    [main] a second time on the same arguments, in the world the first run
    left, gives the same exit status. *)
Theorem exit_status_repeatable (argv : list string) (w : World) :
  exit_status argv (world_of (main argv w)) = exit_status argv w.
Proof.
  destruct (main_run fs_stat spawn ROOT argv w) as (_ & Hw & _).
  rewrite Hw. set (w1 := world_after w _).
  rewrite !exit_status_run.
  destruct (main_run fs_stat spawn ROOT argv w) as (-> & _ & _).
  destruct (main_run fs_stat spawn ROOT argv w1) as (-> & _ & _).
  unfold w1. rewrite stat_fails_after, files_of_after.
  now rewrite (replay_any_world (world_after w _) w).
Qed.

End Repeat.

(** ** The order of the invocations *)

Lemma tflint_not_fmt (i : Invocation) : is_tflint i = true -> is_terraform_fmt i = false.
Proof.
  unfold is_tflint, is_terraform_fmt. destruct (command i) as [|c l]; [easy|].
  intros H. apply String.eqb_eq in H. now subst c.
Qed.

Lemma fmt_checks_are_fmt (files : list Path) :
  forallb is_terraform_fmt (map (fmt_check ROOT) files) = true.
Proof. induction files as [|f files IH]; [reflexivity|exact IH]. Qed.

Lemma lint_steps_are_tflint (dirs : list Path) : forallb is_tflint (lint_steps dirs) = true.
Proof. induction dirs as [|d dirs IH]; [reflexivity|exact IH]. Qed.

Lemma lint_steps_cwd (dirs : list Path) (i : Invocation) :
  In i (lint_steps dirs) -> In (cwd i) dirs.
Proof.
  unfold lint_steps. rewrite in_flat_map. intros (d & Hd & [<-|[<-|[]]]); exact Hd.
Qed.



(** ** Multiplicity *)

Lemma count_occ_filter {A : Type} (dec : forall x y : A, {x = y} + {x <> y})
    (g : A -> bool) (l : list A) (a : A) :
  g a = true -> count_occ dec (filter g l) a = count_occ dec l a.
Proof.
  intros Ha. induction l as [|x l IH]; [reflexivity|]. simpl.
  destruct (g x) eqn:Hx.
  - simpl. destruct (dec x a); now rewrite IH.
  - destruct (dec x a) as [E|Hn]; [congruence|exact IH].
Qed.

Lemma count_occ_map_inj {A B : Type} (decA : forall x y : A, {x = y} + {x <> y})
    (decB : forall x y : B, {x = y} + {x <> y}) (f : A -> B) (l : list A) (a : A) :
  (forall x, In x l -> f x = f a -> x = a) ->
  count_occ decB (map f l) (f a) = count_occ decA l a.
Proof.
  induction l as [|x l IH]; intros H; [reflexivity|]. simpl.
  rewrite IH by (intros y Hy; apply H; now right).
  destruct (decB (f x) (f a)) as [E|E], (decA x a) as [Ea|Hn]; try congruence.
  exfalso. apply Hn. apply H; [now left|exact E].
Qed.

(** Two relative files have the same format check only when they are the
    same file. *)
Lemma fmt_check_inj (f p : Path) :
  wf ROOT = true -> wf f = true -> wf p = true ->
  is_absolute f = false -> is_absolute p = false ->
  fmt_check ROOT f = fmt_check ROOT p -> f = p.
Proof.
  intros HR Hf Hp Hrf Hrp E. unfold fmt_check in E.
  injection E as E. apply str_inj in E; try now apply wf_truediv.
  unfold truediv in E. rewrite Hrf, Hrp in E. injection E as E.
  apply app_inv_head in E.
  unfold is_absolute in Hrf, Hrp.
  apply negb_false_iff, String.eqb_eq in Hrf, Hrp.
  destruct f, p. simpl in *. congruence.
Qed.

Lemma count_fmt_in_lint_steps (dirs : list Path) (l rest : list Invocation) (p : Path) :
  lint_steps dirs = l ++ rest ->
  count_occ Invocation_eq_dec l (fmt_check ROOT p) = 0.
Proof.
  intros E. apply count_occ_not_In. intros Hin.
  pose proof (lint_steps_are_tflint dirs) as H. rewrite E, forallb_app in H.
  apply andb_true_iff in H as [H _]. rewrite forallb_forall in H.
  apply H in Hin. discriminate Hin.
Qed.

(** A cut trace that is not all successes holds a failure. *)
Lemma upto_failure_has_failure (t : list Event) :
  forallb succeeded t = false ->
  exists e, In e (upto_failure t) /\ In e t /\ succeeded e = false.
Proof.
  induction t as [|e t IH]; simpl; [discriminate|].
  destruct (succeeded e) eqn:E; simpl.
  - intros H. destruct (IH H) as (e' & H1 & H2 & H3). exists e'. auto.
  - intros _. exists e. auto.
Qed.

(** C9, as amended: [main] keeps the order and the multiplicity of the
    qualifying arguments, unless [stat] fails on an argument.  When [stat]
    fails on none and a qualifying path occurs [k] times among the
    arguments, it occurs [k] times among the changed files and [k] format
    checks are planned for it; the run makes at most [k] of them, and
    exactly [k] when none of its format checks fails; and its parent
    directory occurs once among the work directories. *)
Theorem multiplicity_preserved (argv : list string) (w : World) (p : Path) :
  wf ROOT = true ->
  (forall s, In s (tl argv) -> fs_stat w (str (Path_of s)) <> StatError) ->
  In p (map Path_of (tl argv)) ->
  result_of (is_under_terraform_roots fs_stat p w) = inr true ->
  let k := count_occ Path_eq_dec (map Path_of (tl argv)) p in
  let files := files_of w argv in
  result_of (changed_files fs_stat argv w) = inr files /\
  files = filter (qualifies fs_stat w) (map Path_of (tl argv)) /\
  count_occ Path_eq_dec files p = k /\
  count_occ Invocation_eq_dec (plan files) (fmt_check ROOT p) = k /\
  count_occ Invocation_eq_dec (invocations argv w) (fmt_check ROOT p) <= k /\
  ((forall e, In e (trace_of (main argv w)) ->
      is_terraform_fmt (invoked e) = true -> succeeded e = true) ->
   count_occ Invocation_eq_dec (invocations argv w) (fmt_check ROOT p) = k) /\
  count_occ Path_eq_dec (get_tflint_workdirs ROOT files) (ROOT // parent p) = 1.
Proof.
  intros HR Hs Hin Hq k files. apply stat_fails_false in Hs. apply qualifies_true in Hq.
  assert (Hfiles : files = filter (qualifies fs_stat w) (map Path_of (tl argv))).
  { unfold files. rewrite files_of_filter, Hs. apply map_filter_comm. }
  assert (Hres : result_of (changed_files fs_stat argv w) = inr files).
  { unfold files. rewrite files_of_filter, changed_files_run, Hs. reflexivity. }
  assert (Hk : count_occ Path_eq_dec files p = k)
    by (rewrite Hfiles; now apply count_occ_filter).
  assert (Hp : In p files) by (rewrite Hfiles; apply filter_In; auto).
  destruct (changed_files_spec argv w p Hp) as (Hwp & Hrp & Hnp & _).
  assert (Hfmt : count_occ Invocation_eq_dec (map (fmt_check ROOT) files) (fmt_check ROOT p) = k).
  { rewrite <- Hk. apply count_occ_map_inj. intros f Hf E.
    destruct (changed_files_spec argv w f Hf) as (Hwf & Hrf & _).
    now apply fmt_check_inj. }
  assert (Hplan : count_occ Invocation_eq_dec (plan files) (fmt_check ROOT p) = k).
  { unfold Spec.plan. rewrite count_occ_app, Hfmt.
    rewrite (count_fmt_in_lint_steps _ _ [] p) by (symmetry; apply app_nil_r). lia. }
  destruct (main_run fs_stat spawn ROOT argv w) as (Ht & _ & _). fold files in Ht.
  repeat split; try assumption.
  - destruct (upto_failure_prefix (replay w (plan files))) as [rest E].
    apply (f_equal (map invoked)) in E. rewrite replay_invoked, map_app in E.
    unfold TerraformLint.invocations. rewrite Ht.
    rewrite E, count_occ_app in Hplan. lia.
  - intros Hok. unfold TerraformLint.invocations. rewrite Ht in Hok |- *.
    unfold Spec.plan in *. rewrite replay_app, upto_failure_app in Hok |- *.
    destruct (forallb succeeded (replay w (map (fmt_check ROOT) files))) eqn:Hall.
    + rewrite map_app, count_occ_app, replay_invoked, Hfmt.
      destruct (upto_failure_prefix
                  (replay (world_after w (map (fmt_check ROOT) files))
                     (lint_steps (get_tflint_workdirs ROOT files)))) as [rest E].
      apply (f_equal (map invoked)) in E. rewrite replay_invoked, map_app in E.
      rewrite (count_fmt_in_lint_steps _ _ _ p E). lia.
    + exfalso. apply upto_failure_has_failure in Hall as (e & He1 & He2 & He3).
      rewrite Hok in He3; [discriminate|exact He1|].
      apply (in_map invoked) in He2. rewrite replay_invoked in He2.
      pose proof (fmt_checks_are_fmt files) as HA. rewrite forallb_forall in HA.
      now apply HA.
  - destruct (workdir_relative ROOT p Hrp Hnp) as [<- _].
    apply NoDup_count_occ'; [apply get_tflint_workdirs_NoDup|].
    apply get_tflint_workdirs_In; [exact HR|apply changed_files_wf|].
    now apply in_map.
Qed.

End Script.

End Behaviour.

(* ================================================================== *)
(** * Concrete runs *)

Module Runs.

Import Str Pathlib Effects TerraformLint Spec Worlds Qualify Run Behaviour.

(** C2, as stated, fails: where names hold at most 255 characters and the
    only argument has a longer name, no file qualifies and no invocation
    fails, for none is made; yet the exit status is not 0: [stat] fails on
    the argument and the [OSError] leaves [main]. *)
Lemma failing_stat_exits_with_1 :
  let argv := ["terraform_lint.py"; long_name "infra-ai-hub/" ".tf"] in
  ~ (exit_status name_max (counting all_pass) repo argv 0 = 0%Z <->
     (forall s, In s (tl argv) ->
        result_of (is_under_terraform_roots name_max (Path_of s) 0) <> inr true) \/
     forallb succeeded (trace_of (main name_max (counting all_pass) repo argv 0)) = true).
Proof.
  intros argv [_ H].
  assert (E : exit_status name_max (counting all_pass) repo argv 0 = 0%Z)
    by (apply H; right; reflexivity).
  vm_compute in E. discriminate E.
Qed.

(** C4, as stated, fails: where names hold at most 255 characters, an
    argument list whose only path is neither a [.tf] file nor under a root
    does not make [main] return 0 when the name is longer: [stat] fails and
    [main] raises. *)
Lemma non_qualifying_argument_may_raise :
  let argv := ["terraform_lint.py"; long_name "docs/" ".md"] in
  ~ ((forall s, In s (tl argv) ->
        name_max 0 (str (Path_of s)) <> Found \/
        suffix (Path_of s) <> ".tf" \/
        ~ under_configured_prefix (as_posix (Path_of s))) ->
     result_of (main name_max (counting all_pass) repo argv 0) = inr 0%Z).
Proof.
  intros argv H.
  assert (E : result_of (main name_max (counting all_pass) repo argv 0) = inr 0%Z).
  { apply H. intros s [<-|[]]. right. left. intros E. vm_compute in E. discriminate E. }
  vm_compute in E. discriminate E.
Qed.


(** C9, as stated, fails: a qualifying path given twice gets one format
    check, not two, when that check fails. *)
Lemma failing_format_check_runs_once :
  let argv := ["terraform_lint.py"; "infra-ai-hub/a/x.tf"; "infra-ai-hub/a/x.tf"] in
  let p := Path_of "infra-ai-hub/a/x.tf" in
  result_of (is_under_terraform_roots all_exist p 0) = inr true /\
  count_occ Path_eq_dec (map Path_of (tl argv)) p = 2 /\
  count_occ Invocation_eq_dec
    (invocations all_exist (counting all_fail) repo argv 0) (fmt_check repo p) <> 2.
Proof.
  intros argv p. split; [reflexivity|]. split; [reflexivity|].
  intros H. vm_compute in H. discriminate H.
Qed.

(** C10: the file [infra-ai-hub/../../elsewhere/x.tf] qualifies, for its
    forward-slash form starts with [infra-ai-hub/]; its work directory is
    [/repo/infra-ai-hub/../../elsewhere], and the run makes both lint
    invocations there: in the directory [/elsewhere], outside the
    repository at [/repo]. *)
Lemma lint_runs_outside_the_root :
  let argv := ["terraform_lint.py"; "infra-ai-hub/../../elsewhere/x.tf"] in
  let d := from_parsed_parts "/" ["repo"; "infra-ai-hub"; ".."; ".."; "elsewhere"] in
  result_of (is_under_terraform_roots all_exist
               (Path_of "infra-ai-hub/../../elsewhere/x.tf") 0) = inr true /\
  get_tflint_workdirs repo (changed_files_of all_exist 0 argv) = [d] /\
  str d = "/repo/infra-ai-hub/../../elsewhere" /\
  invocations all_exist (counting all_pass) repo argv 0 =
    [invocation ["terraform"; "fmt"; "-check"; "-diff";
                 "/repo/infra-ai-hub/../../elsewhere/x.tf"] repo;
     invocation ["tflint"; "--init"] d;
     invocation ["tflint"; "--minimum-failure-severity=error"] d].
Proof. intros argv d. repeat split; reflexivity. Qed.

(** ** Instances of the theorems *)

(** Two runs on one qualifying file: the format check exits with 1, and
    [main] returns 1; the tools are not installed, and [main] raises. *)
Lemma exit_codes_witness :
  let argv := ["terraform_lint.py"; "infra-ai-hub/a/x.tf"] in
  let i := fmt_check repo (Path_of "infra-ai-hub/a/x.tf") in
  trace_of (main all_exist (counting all_fail) repo argv 0) = [] ++ [event i (Exited 1)] /\
  result_of (main all_exist (counting all_fail) repo argv 0) = inr 1%Z /\
  In (event i NotStarted) (trace_of (main all_exist (counting not_installed) repo argv 0)) /\
  result_of (main all_exist (counting not_installed) repo argv 0) = inl OSError /\
  exit_status all_exist (counting not_installed) repo argv 0 = 1%Z.
Proof.
  intros argv i.
  assert (Ht : trace_of (main all_exist (counting all_fail) repo argv 0) =
               [] ++ [event i (Exited 1)]) by reflexivity.
  assert (He : In (event i NotStarted)
                 (trace_of (main all_exist (counting not_installed) repo argv 0)))
    by (left; reflexivity).
  destruct (exit_codes all_exist (counting all_fail) repo argv 0) as (_ & Hone & _).
  destruct (exit_codes all_exist (counting not_installed) repo argv 0)
    as (_ & _ & Hexit & Hraise & _).
  split; [exact Ht|]. split.
  - apply Hone. exists [], (event i (Exited 1)), 1%Z.
    split; [exact Ht|]. split; [reflexivity|discriminate].
  - split; [exact He|]. split; [exact (Hraise _ He eq_refl)|].
    exact (Hexit _ He (or_introl eq_refl)).
Defined.

(** None of three arguments qualifies. *)
Lemma main_without_qualifying_files_witness :
  let argv := ["terraform_lint.py"; "README.md"; "infra-ai-hub/missing.tf"; "modules/x.tf"] in
  (forall s, In s (tl argv) ->
     two_files 0 (str (Path_of s)) <> Found \/
     suffix (Path_of s) <> ".tf" \/
     ~ under_configured_prefix (as_posix (Path_of s))) /\
  invocations two_files (counting all_fail) repo argv 0 = [] /\
  main two_files (counting all_fail) repo argv 0 = (inr 0%Z, 0, []).
Proof.
  intros argv.
  assert (H : forall s, In s (tl argv) ->
     two_files 0 (str (Path_of s)) <> Found \/
     suffix (Path_of s) <> ".tf" \/
     ~ under_configured_prefix (as_posix (Path_of s))).
  { intros s [<-|[<-|[<-|[]]]].
    - right. left. vm_compute. discriminate.
    - left. vm_compute. discriminate.
    - right. right. intros [E|E]; vm_compute in E; discriminate E. }
  destruct (main_without_qualifying_files two_files (counting all_fail) repo argv 0 H)
    as (H1 & _ & H2 & _).
  split; [exact H|]. split; [exact H1|]. apply H2.
  intros s [<-|[<-|[<-|[]]]]; vm_compute; discriminate.
Defined.

(** The lint check fails in the first work directory. *)
Lemma failure_stops_the_run_witness :
  let argv := ["terraform_lint.py"; "infra-ai-hub/a/x.tf"; "initial-setup/infra/b/z.tf"] in
  let a := Path_of "/repo/infra-ai-hub/a" in
  let t1 := [event (fmt_check repo (Path_of "infra-ai-hub/a/x.tf")) (Exited 0);
             event (fmt_check repo (Path_of "initial-setup/infra/b/z.tf")) (Exited 0);
             event (lint_init a) (Exited 0)] in
  let e := event (lint_check a) (Exited 2) in
  trace_of (main all_exist (counting lint_fails) repo argv 0) = t1 ++ e :: [] /\
  failed e = true /\
  exit_status all_exist (counting lint_fails) repo argv 0 = 1%Z /\
  world_of (main all_exist (counting lint_fails) repo argv 0) = 4.
Proof.
  intros argv a t1 e.
  assert (Ht : trace_of (main all_exist (counting lint_fails) repo argv 0) = t1 ++ e :: [])
    by reflexivity.
  assert (Hf : failed e = true) by reflexivity.
  destruct (failure_stops_the_run all_exist (counting lint_fails) repo argv 0 t1 [] e Ht Hf)
    as (_ & Hexit & _ & Hw).
  split; [exact Ht|]. split; [exact Hf|]. split; [exact Hexit|].
  rewrite Hw. reflexivity.
Defined.

(** Two runs in a row in the counting world. *)
Lemma exit_status_repeatable_witness :
  let argv := ["terraform_lint.py"; "infra-ai-hub/a/x.tf"; "initial-setup/infra/b/z.tf"] in
  (forall w i s, all_exist (snd (counting lint_fails w i)) s = all_exist w s) /\
  (forall w w' i, fst (counting lint_fails w i) = fst (counting lint_fails w' i)) /\
  world_of (main all_exist (counting lint_fails) repo argv 0) = 4 /\
  exit_status all_exist (counting lint_fails) repo argv 4 =
  exit_status all_exist (counting lint_fails) repo argv 0.
Proof.
  intros argv.
  assert (H1 : forall w i s, all_exist (snd (counting lint_fails w i)) s = all_exist w s)
    by (intros; reflexivity).
  assert (H2 : forall w w' i, fst (counting lint_fails w i) = fst (counting lint_fails w' i))
    by (intros; reflexivity).
  split; [exact H1|]. split; [exact H2|]. split; [reflexivity|].
  exact (exit_status_repeatable all_exist (counting lint_fails) repo H1 H2 argv 0).
Defined.

(** A file given twice, in a run where every check passes: two format
    checks are made for it. *)
Lemma multiplicity_preserved_witness :
  let argv := ["terraform_lint.py"; "infra-ai-hub/a/x.tf"; "infra-ai-hub/a/y.tf";
               "infra-ai-hub/a/x.tf"] in
  let p := Path_of "infra-ai-hub/a/x.tf" in
  wf repo = true /\
  (forall s, In s (tl argv) -> all_exist 0 (str (Path_of s)) <> StatError) /\
  In p (map Path_of (tl argv)) /\
  result_of (is_under_terraform_roots all_exist p 0) = inr true /\
  count_occ Path_eq_dec (changed_files_of all_exist 0 argv) p = 2 /\
  count_occ Invocation_eq_dec (invocations all_exist (counting all_pass) repo argv 0)
    (fmt_check repo p) = 2 /\
  count_occ Path_eq_dec (get_tflint_workdirs repo (changed_files_of all_exist 0 argv))
    (repo // parent p) = 1.
Proof.
  intros argv p.
  assert (H1 : wf repo = true) by reflexivity.
  assert (H2 : forall s, In s (tl argv) -> all_exist 0 (str (Path_of s)) <> StatError)
    by (intros s _; discriminate).
  assert (H3 : In p (map Path_of (tl argv))) by (left; reflexivity).
  assert (H4 : result_of (is_under_terraform_roots all_exist p 0) = inr true)
    by reflexivity.
  destruct (multiplicity_preserved all_exist (counting all_pass) repo argv 0 p H1 H2 H3 H4)
    as (_ & _ & Hk & _ & _ & Heq & Hd).
  split; [exact H1|]. split; [exact H2|]. split; [exact H3|]. split; [exact H4|].
  split; [exact Hk|]. split; [|exact Hd].
  apply Heq. intros e He _.
  repeat (destruct He as [<-|He]; [reflexivity|]). destruct He.
Defined.

End Runs.

(* ================================================================== *)
(** * Further properties of the work directories *)

Module MoreWorkdirs.

Import Str StrFacts Pathlib PathFacts SortFacts Effects TerraformLint Spec Workdirs Worlds.

Lemma set_of_length (l : list Path) : length (set_of l) <= length l.
Proof.
  induction l as [|x l IH]; simpl; [lia|].
  pose proof (filter_length_le (fun y => negb (path_eqb x y)) (set_of l)). lia.
Qed.

(** In a strictly sorted list the smaller of two elements comes first. *)
Lemma sorted_lt_before (l : list Path) (a b : Path) :
  StronglySorted path_lt l -> In a l -> In b l -> path_lt a b ->
  exists l1 l2 l3, l = l1 ++ a :: l2 ++ b :: l3.
Proof.
  induction 1 as [|x l Hl IH Hx]; intros Ha Hb Hab; [destruct Ha|].
  rewrite Forall_forall in Hx.
  destruct Ha as [->|Ha], Hb as [->|Hb].
  - destruct (path_lt_irrefl _ Hab).
  - apply in_split in Hb as (l2 & l3 & ->). now exists [], l2, l3.
  - destruct (path_lt_asym _ _ Hab (Hx _ Ha)).
  - destruct (IH Ha Hb Hab) as (l1 & l2 & l3 & ->). now exists (x :: l1), l2, l3.
Qed.

(** A directory is smaller than every directory below it, unless it is the
    empty relative path, whose only field is ["."]. *)
Lemma path_lt_below (r : string) (t u : list string) :
  wf (from_parsed_parts r t) = true -> wf (from_parsed_parts r (t ++ u)) = true ->
  r <> "" \/ t <> [] -> u <> [] ->
  path_lt (from_parsed_parts r t) (from_parsed_parts r (t ++ u)).
Proof.
  intros H1 H2 Ht Hu. unfold path_lt, path_ltb.
  rewrite !parts_normcase_wf by assumption.
  rewrite (fields_app r t u Hu).
  destruct t as [|y t].
  - destruct Ht as [Hr|Ht]; [|congruence].
    unfold fields. cbn [root tail]. rewrite !(list_compare_app _ cmp_eq).
    destruct r as [|c r]; [congruence|]. cbn [String.eqb].
    destruct u as [|x u]; [congruence|].
    apply wf_inv in H2 as [_ H2]. cbn [tail app forallb] in H2.
    apply andb_true_iff in H2 as [Hx _]. apply part_ok_inv in Hx as (Hx & _).
    destruct x; [congruence|reflexivity].
  - replace (fields (from_parsed_parts r (y :: t))) with (root_fields r ++ (y :: t) ++ [])
      by (rewrite app_nil_r; reflexivity).
    rewrite !(list_compare_app _ cmp_eq).
    destruct u; [congruence|reflexivity].
Qed.

(** The work directories of an absolute root are absolute. *)
Lemma workdir_absolute (ROOT f : Path) :
  is_absolute ROOT = true -> is_absolute (parent (ROOT // f)) = true.
Proof.
  intros HR.
  assert (H : is_absolute (ROOT // f) = true).
  { unfold truediv. destruct (is_absolute f) eqn:E; [exact E|exact HR]. }
  unfold parent. destruct (tail (ROOT // f)); [exact H|exact H].
Qed.

Section Directories.

Variable ROOT : Path.

(** X1: whatever the files, the work directories come out strictly sorted,
    no two of them equal as paths, each one the parent of [ROOT / file] for
    one of the files, and there are no more of them than files. *)
Theorem workdirs_sorted_and_distinct (files : list Path) :
  StronglySorted path_lt (get_tflint_workdirs ROOT files) /\
  NoDup (map str (get_tflint_workdirs ROOT files)) /\
  Forall (fun d => exists f, In f files /\ d = parent (ROOT // f))
         (get_tflint_workdirs ROOT files) /\
  length (get_tflint_workdirs ROOT files) <= length files.
Proof.
  split; [apply get_tflint_workdirs_sorted|]. split; [|split].
  - apply (Permutation_NoDup
             (l := map str (set_of (map (fun f => parent (ROOT // f)) files)))).
    + apply Permutation_map. symmetry. apply sorted_perm.
    + apply set_of_NoDup.
  - apply Forall_forall. intros d Hd. now apply get_tflint_workdirs_incl in Hd.
  - unfold get_tflint_workdirs.
    rewrite (Permutation_length (sorted_perm _)).
    etransitivity; [apply set_of_length|]. now rewrite length_map.
Qed.

(** X2: the work directories depend on the set of the files only: two lists
    of paths with the same elements, however often and in whatever order,
    give the same list. *)
Theorem workdirs_of_same_files (l1 l2 : list Path) :
  wf ROOT = true -> forallb wf l1 = true -> forallb wf l2 = true ->
  (forall f, In f l1 <-> In f l2) ->
  get_tflint_workdirs ROOT l1 = get_tflint_workdirs ROOT l2.
Proof.
  intros HR H1 H2 Hsame. apply sorted_unique; try apply get_tflint_workdirs_sorted.
  intros d. rewrite !get_tflint_workdirs_In by assumption.
  rewrite !in_map_iff. split; intros (f & E & Hf); exists f; split; try exact E;
    now apply Hsame.
Qed.

(** X3: a work directory comes before the work directories below it. This
    holds whenever the root of the script is absolute, as the resolved
    location of the script is, and for a relative root for every work
    directory but the empty relative path [.]: its key is [["."]], and a
    directory below it whose name starts with a smaller character comes
    first (see [current_directory_not_first]). *)
Theorem parent_directory_first (files : list Path) (d1 d2 : Path) (u : list string) :
  wf ROOT = true -> forallb wf files = true ->
  In d1 (get_tflint_workdirs ROOT files) -> In d2 (get_tflint_workdirs ROOT files) ->
  root d2 = root d1 -> u <> [] -> tail d2 = tail d1 ++ u ->
  is_absolute ROOT = true \/ str d1 <> "." ->
  exists l1 l2 l3, get_tflint_workdirs ROOT files = l1 ++ d1 :: l2 ++ d2 :: l3.
Proof.
  intros HR Hf H1 H2 Hr Hu Hd Hdot.
  apply sorted_lt_before; try assumption; [apply get_tflint_workdirs_sorted|].
  assert (Hwf : forall d, In d (get_tflint_workdirs ROOT files) -> wf d = true).
  { intros d Hin. apply get_tflint_workdirs_incl in Hin as (f & Hin & ->).
    apply wf_workdir; [exact HR|]. rewrite forallb_forall in Hf. now apply Hf. }
  assert (Hne : root d1 <> "" \/ tail d1 <> []).
  { destruct Hdot as [Habs|Hdot].
    - left. apply get_tflint_workdirs_incl in H1 as (f & _ & ->).
      pose proof (workdir_absolute ROOT f Habs) as A. unfold is_absolute in A.
      intros E. unfold workdir in E. rewrite E in A. discriminate A.
    - destruct (tail d1) eqn:Et; [|right; discriminate].
      left. intros Er. apply Hdot. unfold str. now rewrite Er, Et. }
  apply Hwf in H1, H2. destruct d1 as [r1 t1], d2 as [r2 t2]. cbn [root tail] in *.
  subst r2 t2. now apply path_lt_below.
Qed.

(** X4: an absolute file is not re-based under the root: for absolute files
    the result is the same whatever the root, and each work directory is
    the file's own parent. *)
Theorem absolute_files_keep_their_parent (ROOT' : Path) (files : list Path) :
  forallb is_absolute files = true ->
  get_tflint_workdirs ROOT files = get_tflint_workdirs ROOT' files /\
  Forall (fun d => exists f, In f files /\ d = parent f) (get_tflint_workdirs ROOT files).
Proof.
  intros Habs. rewrite forallb_forall in Habs.
  assert (E : forall R, map (fun f => parent (R // f)) files = map parent files).
  { intros R. apply map_ext_in. intros f Hf. unfold truediv. now rewrite (Habs f Hf). }
  unfold get_tflint_workdirs. rewrite (E ROOT), (E ROOT'). split; [reflexivity|].
  apply Forall_forall. intros d Hd.
  apply sorted_In, set_of_incl, in_map_iff in Hd as (f & <- & Hf). eauto.
Qed.

End Directories.

(** Files given twice and in another order. *)
Lemma workdirs_of_same_files_witness :
  let x := Path_of "infra-ai-hub/a/x.tf" in
  let z := Path_of "initial-setup/infra/b/z.tf" in
  wf repo = true /\ forallb wf [x; z; x] = true /\ forallb wf [z; x] = true /\
  (forall f, In f [x; z; x] <-> In f [z; x]) /\
  get_tflint_workdirs repo [x; z; x] = get_tflint_workdirs repo [z; x].
Proof.
  intros x z.
  assert (H : forall f, In f [x; z; x] <-> In f [z; x]) by (intros f; simpl; tauto).
  split; [reflexivity|]. split; [reflexivity|]. split; [reflexivity|]. split; [exact H|].
  exact (workdirs_of_same_files repo [x; z; x] [z; x] eq_refl eq_refl eq_refl H).
Defined.

(** The root directory and one below it, with the script's root at [/]. *)
Lemma parent_directory_first_witness :
  let ROOT := Path_of "/" in
  let files := map Path_of ["a/y.tf"; "x.tf"] in
  let d1 := Path_of "/" in
  let d2 := Path_of "/a" in
  wf ROOT = true /\ forallb wf files = true /\
  In d1 (get_tflint_workdirs ROOT files) /\ In d2 (get_tflint_workdirs ROOT files) /\
  root d2 = root d1 /\ ["a"] <> [] /\ tail d2 = tail d1 ++ ["a"] /\
  (is_absolute ROOT = true \/ str d1 <> ".") /\
  exists l1 l2 l3, get_tflint_workdirs ROOT files = l1 ++ d1 :: l2 ++ d2 :: l3.
Proof.
  intros ROOT files d1 d2.
  assert (H1 : In d1 (get_tflint_workdirs ROOT files)) by (left; reflexivity).
  assert (H2 : In d2 (get_tflint_workdirs ROOT files)) by (right; left; reflexivity).
  assert (H3 : ["a"] <> []) by discriminate.
  assert (H4 : is_absolute ROOT = true \/ str d1 <> ".") by (left; reflexivity).
  split; [reflexivity|]. split; [reflexivity|]. split; [exact H1|]. split; [exact H2|].
  split; [reflexivity|]. split; [exact H3|]. split; [reflexivity|]. split; [exact H4|].
  exact (parent_directory_first ROOT files d1 d2 ["a"] eq_refl eq_refl H1 H2 eq_refl H3
           eq_refl H4).
Defined.

(** With a relative root, the directory [.] comes after the directory [-a]
    below it: the character [-] is smaller than the dot. *)
Lemma current_directory_not_first :
  get_tflint_workdirs (Path_of ".") (map Path_of ["x.tf"; "-a/y.tf"]) =
  [Path_of "-a"; Path_of "."].
Proof. reflexivity. Qed.

(** An absolute file under two different roots. *)
Lemma absolute_files_keep_their_parent_witness :
  let files := [Path_of "/etc/terraform/x.tf"] in
  forallb is_absolute files = true /\
  get_tflint_workdirs repo files = get_tflint_workdirs (Path_of "/srv/other") files /\
  get_tflint_workdirs repo files = [Path_of "/etc/terraform"].
Proof.
  intros files. split; [reflexivity|]. split; [|reflexivity].
  exact (proj1 (absolute_files_keep_their_parent repo (Path_of "/srv/other") files eq_refl)).
Defined.

End MoreWorkdirs.

(* ================================================================== *)
(** * Further properties of the qualification predicate *)

Module MoreQualify.

Import Str StrFacts Pathlib PathFacts Effects TerraformLint Spec Qualify Worlds.

(** The string form of a relative path with components is their join. *)
Lemma as_posix_relative (x : string) (t : list string) :
  x <> "" -> as_posix (from_parsed_parts "" (x :: t)) = join_sep (x :: t).
Proof.
  intros Hx. unfold as_posix, str. cbn [root tail String.eqb].
  pose proof (join_sep_not_empty x t Hx) as Hj. apply String.eqb_neq in Hj.
  now rewrite Hj.
Qed.

(** The prefix tests, read on the components of a well-formed path. *)
Lemma under_prefix_components (p : Path) :
  wf p = true ->
  (under_configured_prefix (as_posix p) <->
   root p = "" /\
   ((exists x rest, tail p = "infra-ai-hub" :: x :: rest) \/
    (exists x rest, tail p = "initial-setup" :: "infra" :: x :: rest))).
Proof.
  intros Hwf. split.
  - intros Hp. destruct (under_prefix_relative p Hwf Hp) as [Hrel Hne].
    apply wf_inv in Hwf as [_ Ht].
    destruct p as [r t]. unfold is_absolute in Hrel. cbn [root tail] in *.
    apply negb_false_iff, String.eqb_eq in Hrel. subst r. split; [reflexivity|].
    destruct t as [|y t]; [congruence|].
    pose proof (forallb_part_ok_no_sep _ Ht) as Hns.
    assert (Hy : y <> "").
    { simpl in Ht. apply andb_true_iff in Ht as [Hy _]. now apply part_ok_inv in Hy. }
    rewrite (as_posix_relative y t Hy) in Hp.
    assert (Hsplit : split_sep (join_sep (y :: t)) = y :: t)
      by (apply split_join; [discriminate|exact Hns]).
    destruct Hp as [Hp|Hp]; apply startswith_spec in Hp as [rest E];
      rewrite E in Hsplit.
    + right.
      change ("initial-setup/infra/" ++ rest)%string
        with ("initial-setup" ++ String sep ("infra" ++ String sep rest))%string in Hsplit.
      rewrite !split_sep_app in Hsplit by reflexivity.
      pose proof (split_sep_not_nil rest) as Hrest.
      destruct (split_sep rest) as [|x l]; [congruence|].
      injection Hsplit as <- <-. now exists x, l.
    + left.
      change ("infra-ai-hub/" ++ rest)%string
        with ("infra-ai-hub" ++ String sep rest)%string in Hsplit.
      rewrite split_sep_app in Hsplit by reflexivity.
      pose proof (split_sep_not_nil rest) as Hrest.
      destruct (split_sep rest) as [|x l]; [congruence|].
      injection Hsplit as <- <-. now exists x, l.
  - intros [Hr H]. destruct p as [r t]. cbn [root tail] in *. subst r.
    destruct H as [(x & rest & ->)|(x & rest & ->)].
    + right. rewrite as_posix_relative by discriminate.
      apply startswith_spec. exists (join_sep (x :: rest)). reflexivity.
    + left. rewrite as_posix_relative by discriminate.
      apply startswith_spec. exists (join_sep (x :: rest)). reflexivity.
Qed.

(** A leading [./] is dropped by the path constructor. *)
Lemma Path_of_dot_slash (s : string) :
  startswith s "/" = false -> Path_of ("./" ++ s) = Path_of s.
Proof.
  intros H. destruct s as [|c s]; [reflexivity|].
  assert (Hc : Ascii.eqb c sep = false).
  { destruct (Ascii.eqb_spec c sep) as [->|]; [|reflexivity].
    unfold startswith in H. simpl in H. now destruct s. }
  unfold Path_of. cbn [append String.eqb]. cbn [splitroot Ascii.eqb Bool.eqb].
  unfold splitroot. rewrite Hc. cbn [split_sep Ascii.eqb Bool.eqb].
  pose proof (split_sep_not_nil (String c s)) as Hne.
  destruct (split_sep (String c s)) as [|h t] eqn:E; [congruence|].
  reflexivity.
Qed.

Section Predicate.

Context {World : Type}.
Variable fs_stat : World -> string -> Stat.

(** X5: a path qualifies exactly when it exists, its name is a non-empty
    stem followed by [.tf], it is relative, and its first component is
    [infra-ai-hub], or its first two are [initial-setup] and [infra], with
    at least one more component after them; a sibling directory whose name
    merely begins like a root does not count. *)
Theorem qualifying_path_components (w : World) (p : Path) :
  wf p = true ->
  (result_of (is_under_terraform_roots fs_stat p w) = inr true <->
   result_of (path_exists fs_stat p w) = inr true /\
   (exists stem, stem <> "" /\ name p = (stem ++ ".tf")%string) /\
   root p = "" /\
   ((exists x rest, tail p = "infra-ai-hub" :: x :: rest) \/
    (exists x rest, tail p = "initial-setup" :: "infra" :: x :: rest))).
Proof.
  intros Hwf.
  assert (E : result_of (path_exists fs_stat p w) = inr true <-> fs_stat w (str p) = Found).
  { unfold path_exists, result_of. destruct (fs_stat w (str p)); cbn [fst];
      split; intros H; try discriminate; reflexivity. }
  rewrite under_roots_true, suffix_tf_iff, (under_prefix_components p Hwf), E. tauto.
Qed.

(** X6: a leading [./] on an argument changes nothing: the argument is the
    same path and the predicate does on it what it does without it. *)
Theorem leading_dot_slash_ignored (w : World) (s : string) :
  startswith s "/" = false ->
  Path_of ("./" ++ s) = Path_of s /\
  is_under_terraform_roots fs_stat (Path_of ("./" ++ s)) w =
  is_under_terraform_roots fs_stat (Path_of s) w.
Proof.
  intros H. rewrite (Path_of_dot_slash s H). split; reflexivity.
Qed.

End Predicate.

(** A file at the top of a root, and the same file under a sibling
    directory. *)
Lemma qualifying_path_components_witness :
  let p := Path_of "infra-ai-hub/main.tf" in
  wf p = true /\
  result_of (is_under_terraform_roots all_exist p 0) = inr true /\
  (exists x rest, tail p = "infra-ai-hub" :: x :: rest) /\
  result_of (is_under_terraform_roots all_exist (Path_of "infra-ai-hub-old/main.tf") 0) =
    inr false.
Proof.
  intros p. split; [reflexivity|]. split; [reflexivity|]. split.
  - destruct (proj1 (qualifying_path_components all_exist 0 p eq_refl) eq_refl)
      as (_ & _ & _ & [H|(x & rest & H)]); [exact H|discriminate H].
  - reflexivity.
Defined.

(** The same file with and without the leading [./]. *)
Lemma leading_dot_slash_ignored_witness :
  startswith "infra-ai-hub/a/x.tf" "/" = false /\
  is_under_terraform_roots two_files (Path_of "./infra-ai-hub/a/x.tf") 0 =
  is_under_terraform_roots two_files (Path_of "infra-ai-hub/a/x.tf") 0.
Proof.
  split; [reflexivity|].
  exact (proj2 (leading_dot_slash_ignored two_files 0 "infra-ai-hub/a/x.tf" eq_refl)).
Defined.

End MoreQualify.

(* ================================================================== *)
(** * Further properties of the runs of [main] *)

Module MoreRuns.

Import Str StrFacts Pathlib PathFacts SortFacts Effects TerraformLint Spec.
Import Qualify Workdirs Run Behaviour Worlds.

Lemma upto_failure_incl (X : list Event) (e : Event) : In e (upto_failure X) -> In e X.
Proof.
  destruct (upto_failure_prefix X) as [rest E]. intros H. rewrite E.
  apply in_or_app. now left.
Qed.

Lemma forallb_upto_failure (f : Event -> bool) (X : list Event) :
  forallb f X = true -> forallb f (upto_failure X) = true.
Proof.
  rewrite !forallb_forall. intros H e He. now apply H, upto_failure_incl.
Qed.

Lemma forallb_invoked (f : Invocation -> bool) (t : list Event) :
  forallb (fun e => f (invoked e)) t = forallb f (map invoked t).
Proof. induction t as [|e t IH]; simpl; [reflexivity|now rewrite IH]. Qed.

(** In the plan, a lint check comes right after the initialisation of the
    same directory. *)
Lemma lint_check_after_init (A : list Invocation) (dirs : list Path)
    (l1 l2 : list Invocation) (i : Invocation) :
  forallb is_terraform_fmt A = true ->
  A ++ lint_steps dirs = l1 ++ i :: l2 ->
  command i = ["tflint"; "--minimum-failure-severity=error"] ->
  exists l0, l1 = l0 ++ [lint_init (cwd i)].
Proof.
  intros HA. revert l1. induction A as [|a A IH]; intros l1 E Hi.
  - clear HA. cbn [app] in E. revert l1 E.
    induction dirs as [|d dirs IHd]; intros l1 E.
    + destruct l1; discriminate E.
    + change (lint_steps (d :: dirs))
        with (lint_init d :: lint_check d :: lint_steps dirs) in E.
      destruct l1 as [|a [|b l1]]; cbn [app] in E.
      * injection E as <- _. discriminate Hi.
      * injection E as <- <- _. now exists [].
      * injection E as <- <- E. destruct (IHd l1 E) as [l0 ->].
        now exists (lint_init d :: lint_check d :: l0).
  - simpl in HA. apply andb_true_iff in HA as [Ha HA].
    destruct l1 as [|x l1]; cbn [app] in E; injection E as <- E.
    + unfold is_terraform_fmt in Ha. rewrite Hi in Ha. discriminate Ha.
    + destruct (IH HA l1 E Hi) as [l0 ->]. now exists (a :: l0).
Qed.

Lemma map_eq_snoc {A B : Type} (f : A -> B) (t : list A) (l0 : list B) (x : B) :
  map f t = l0 ++ [x] -> exists t0 e, t = t0 ++ [e] /\ map f t0 = l0 /\ f e = x.
Proof.
  destruct t as [|a t _] using rev_ind.
  - destruct l0; discriminate.
  - rewrite map_app. cbn [map]. intros E. apply app_inj_tail in E as [E1 E2].
    now exists t, a.
Qed.

Lemma append_assoc (a b c : string) : ((a ++ b) ++ c = a ++ (b ++ c))%string.
Proof. induction a as [|x a IH]; simpl; [reflexivity|now rewrite IH]. Qed.

Lemma join_sep_app (a b : list string) :
  a <> [] -> b <> [] ->
  join_sep (a ++ b) = (join_sep a ++ String sep (join_sep b))%string.
Proof.
  intros Ha Hb. induction a as [|x a IH]; [congruence|].
  destruct a as [|y a].
  - destruct b as [|z b]; [congruence|]. cbn [app]. now rewrite join_sep_cons.
  - cbn [app] in *. rewrite !join_sep_cons, IH by discriminate.
    now rewrite append_assoc.
Qed.

Section Script.

Context {World : Type}.
Variable fs_stat : World -> string -> Stat.
Variable spawn : World -> Invocation -> Outcome * World.
Variable ROOT : Path.

#[local] Abbreviation main := (main fs_stat spawn ROOT).
#[local] Abbreviation exit_status := (exit_status fs_stat spawn ROOT).
#[local] Abbreviation invocations := (invocations fs_stat spawn ROOT).
#[local] Abbreviation files_of := (changed_files_of fs_stat).
#[local] Abbreviation plan := (plan ROOT).
#[local] Abbreviation replay := (replay spawn).

Lemma invocations_prefix (argv : list string) (w : World) :
  exists rest, plan (files_of w argv) = invocations argv w ++ rest.
Proof.
  destruct (main_run fs_stat spawn ROOT argv w) as (Ht & _ & _).
  unfold TerraformLint.invocations. rewrite Ht.
  destruct (upto_failure_prefix (replay w (plan (files_of w argv)))) as [rest E].
  exists (map invoked rest). rewrite <- map_app, <- E. symmetry. apply replay_invoked.
Qed.

(** X7: how [main] ends.  It returns 0 exactly when [stat] failed on no
    argument and every invocation of the run succeeded; it returns 1 exactly
    when the last invocation exited with a non-zero code; it lets an
    [OSError] through, instead of returning, exactly when [stat] failed on
    an argument or the last invocation could not be started; and it never
    raises [RuntimeError] itself. *)
Theorem how_main_ends (argv : list string) (w : World) :
  let t := trace_of (main argv w) in
  let r := result_of (main argv w) in
  (r = inr 0%Z <->
     (forall s, In s (tl argv) -> fs_stat w (str (Path_of s)) <> StatError) /\
     forallb succeeded t = true) /\
  (r = inr 1%Z <->
     exists t1 e rc, t = t1 ++ [e] /\ outcome e = Exited rc /\ rc <> 0%Z) /\
  (r = inl OSError <->
     (exists s, In s (tl argv) /\ fs_stat w (str (Path_of s)) = StatError) \/
     exists t1 e, t = t1 ++ [e] /\ outcome e = NotStarted) /\
  r <> inl RuntimeError.
Proof.
  cbv zeta. pose proof (main_result fs_stat spawn ROOT argv w) as H. cbv zeta in H.
  destruct H as (H0 & H1 & H2 & H3).
  rewrite <- stat_fails_false, <- stat_fails_spec. auto.
Qed.

(** X8: [main] runs nothing but the three commands: each invocation is the
    format check of a changed file, run from the root, or one of the two
    lint commands, run in the parent directory of a changed file. *)
Theorem only_the_three_commands (argv : list string) (w : World) :
  Forall (fun i =>
    (exists f, In f (files_of w argv) /\
       i = invocation ["terraform"; "fmt"; "-check"; "-diff"; str (ROOT // f)] ROOT) \/
    (exists f, In f (files_of w argv) /\ cwd i = parent (ROOT // f) /\
       (command i = ["tflint"; "--init"] \/
        command i = ["tflint"; "--minimum-failure-severity=error"])))
    (invocations argv w).
Proof.
  apply Forall_forall. intros i Hi.
  destruct (invocations_prefix argv w) as [rest E].
  assert (Hp : In i (plan (files_of w argv)))
    by (rewrite E; apply in_or_app; now left).
  unfold Spec.plan in Hp. apply in_app_or in Hp as [Hp|Hp].
  - left. apply in_map_iff in Hp as (f & <- & Hf). now exists f.
  - right. unfold lint_steps in Hp. apply in_flat_map in Hp as (d & Hd & Hi').
    apply get_tflint_workdirs_incl in Hd as (f & Hf & ->).
    exists f. split; [exact Hf|].
    destruct Hi' as [<-|[<-|[]]]; split; auto.
Qed.

(** X9: the lint tool is run only once every format check has passed: a
    trace with a lint invocation starts with the format checks of all the
    changed files, all successful, and goes on with lint invocations
    only. *)
Theorem lint_only_after_format_checks (argv : list string) (w : World) :
  existsb (fun e => is_tflint (invoked e)) (trace_of (main argv w)) = true ->
  exists tf tl,
    trace_of (main argv w) = tf ++ tl /\
    map invoked tf = map (fmt_check ROOT) (files_of w argv) /\
    forallb succeeded tf = true /\
    forallb (fun e => is_tflint (invoked e)) tl = true.
Proof.
  destruct (main_run fs_stat spawn ROOT argv w) as (Ht & _ & _).
  rewrite Ht. unfold Spec.plan. rewrite replay_app, upto_failure_app.
  set (A := map (fmt_check ROOT) (files_of w argv)).
  destruct (forallb succeeded (replay w A)) eqn:Hall.
  - intros _. exists (replay w A). eexists. split; [reflexivity|].
    split; [apply replay_invoked|]. split; [exact Hall|].
    apply forallb_upto_failure. rewrite forallb_invoked, replay_invoked.
    apply lint_steps_are_tflint.
  - intros H. exfalso. apply existsb_exists in H as (e & He & Hl).
    apply upto_failure_incl, (in_map invoked) in He. rewrite replay_invoked in He.
    pose proof (fmt_checks_are_fmt ROOT (files_of w argv)) as HA.
    rewrite forallb_forall in HA. apply HA in He.
    apply tflint_not_fmt in Hl. congruence.
Qed.

(** X10: a lint check is run only right after the successful
    initialisation of the same directory. *)
Theorem lint_check_follows_init (argv : list string) (w : World)
    (t1 t2 : list Event) (e : Event) :
  trace_of (main argv w) = t1 ++ e :: t2 ->
  command (invoked e) = ["tflint"; "--minimum-failure-severity=error"] ->
  exists t0 e0,
    t1 = t0 ++ [e0] /\
    invoked e0 = invocation ["tflint"; "--init"] (cwd (invoked e)) /\
    succeeded e0 = true.
Proof.
  intros Ht Hc.
  destruct (invocations_prefix argv w) as [rest E].
  unfold TerraformLint.invocations in E. rewrite Ht, map_app in E. cbn [map] in E.
  rewrite <- app_assoc in E. cbn [app] in E. unfold Spec.plan in E.
  destruct (lint_check_after_init _ _ _ _ _ (fmt_checks_are_fmt ROOT _) E Hc) as [l0 Hl].
  apply map_eq_snoc in Hl as (t0 & e0 & -> & _ & He0).
  exists t0, e0. split; [reflexivity|]. split; [exact He0|].
  destruct (main_run fs_stat spawn ROOT argv w) as (Hrun & _ & _).
  rewrite Ht in Hrun. symmetry in Hrun.
  destruct (upto_failure_split _ _ _ _ Hrun) as [H _].
  rewrite forallb_app in H. apply andb_true_iff in H as [_ H].
  simpl in H. now rewrite andb_true_r in H.
Qed.

(** X11: an exit status of 0 means that every qualifying argument was
    checked: its format check ran and exited with 0, and so did both lint
    commands in its parent directory. *)
Theorem success_covers_every_file (argv : list string) (w : World) (s : string) :
  wf ROOT = true ->
  exit_status argv w = 0%Z ->
  In s (tl argv) ->
  result_of (is_under_terraform_roots fs_stat (Path_of s) w) = inr true ->
  let t := trace_of (main argv w) in
  let d := parent (ROOT // Path_of s) in
  In (event (invocation ["terraform"; "fmt"; "-check"; "-diff"; str (ROOT // Path_of s)] ROOT)
            (Exited 0)) t /\
  In (event (invocation ["tflint"; "--init"] d) (Exited 0)) t /\
  In (event (invocation ["tflint"; "--minimum-failure-severity=error"] d) (Exited 0)) t.
Proof.
  intros HR Hexit Hs Hq t d.
  rewrite exit_status_run in Hexit. fold t in Hexit.
  destruct (stat_fails fs_stat w argv) eqn:Hstat; [discriminate|].
  destruct (forallb succeeded t) eqn:Hall; [clear Hexit|discriminate].
  assert (Hinv : map invoked t = plan (files_of w argv)).
  { destruct (main_run fs_stat spawn ROOT argv w) as (Ht & _ & _). fold t in Ht.
    rewrite Ht in Hall |- *. rewrite (upto_failure_all _ Hall). apply replay_invoked. }
  assert (Hev : forall i, In i (plan (files_of w argv)) -> In (event i (Exited 0)) t).
  { intros i Hi. rewrite <- Hinv in Hi. apply in_map_iff in Hi as (e & <- & He).
    rewrite forallb_forall in Hall. pose proof (Hall e He) as Hs'.
    unfold succeeded in Hs'. destruct e as [i o]. cbn [outcome invoked] in *.
    destruct o as [rc|]; [|discriminate]. apply Z.eqb_eq in Hs'. now subst rc. }
  assert (Hf : In (Path_of s) (files_of w argv)).
  { rewrite files_of_filter, Hstat. apply in_map, filter_In.
    split; [exact Hs|now apply qualifies_true]. }
  assert (Hd : In d (get_tflint_workdirs ROOT (files_of w argv))).
  { apply get_tflint_workdirs_In; [exact HR|apply changed_files_wf|].
    unfold d. now apply (in_map (fun f => parent (ROOT // f))). }
  repeat split; apply Hev; unfold Spec.plan; apply in_or_app.
  - left. now apply (in_map (fmt_check ROOT)).
  - right. unfold lint_steps. apply in_flat_map. exists d. split; [exact Hd|now left].
  - right. unfold lint_steps. apply in_flat_map. exists d.
    split; [exact Hd|right; now left].
Qed.

(** X12: a run makes at most three invocations for each qualifying
    argument, and a run with exit status 0 makes one per changed file and
    two per work directory. *)
Theorem number_of_invocations (argv : list string) (w : World) :
  let files := files_of w argv in
  length files <= length (tl argv) /\
  length (invocations argv w) <= 3 * length files /\
  (exit_status argv w = 0%Z ->
   length (invocations argv w) =
   length files + 2 * length (get_tflint_workdirs ROOT files)).
Proof.
  cbv zeta.
  assert (Hplan : length (plan (files_of w argv)) =
                  length (files_of w argv) +
                  2 * length (get_tflint_workdirs ROOT (files_of w argv))).
  { unfold Spec.plan. rewrite List.length_app, length_map. f_equal.
    induction (get_tflint_workdirs ROOT (files_of w argv)) as [|d l IH];
      [reflexivity|]. cbn [lint_steps flat_map app length] in *.
    unfold lint_steps in IH. lia. }
  assert (Hd : length (get_tflint_workdirs ROOT (files_of w argv))
               <= length (files_of w argv)).
  { unfold get_tflint_workdirs. rewrite (Permutation_length (sorted_perm _)).
    etransitivity; [apply MoreWorkdirs.set_of_length|]. now rewrite length_map. }
  split; [|split].
  - rewrite files_of_filter. destruct (stat_fails fs_stat w argv); [simpl; lia|].
    rewrite length_map. apply filter_length_le.
  - destruct (invocations_prefix argv w) as [rest E].
    apply (f_equal (@length _)) in E. rewrite List.length_app in E. lia.
  - intros Hexit. rewrite exit_status_run in Hexit.
    destruct (stat_fails fs_stat w argv); [discriminate|].
    destruct (forallb succeeded (trace_of (main argv w))) eqn:Hall; [|discriminate].
    rewrite <- Hplan. f_equal. unfold TerraformLint.invocations.
    destruct (main_run fs_stat spawn ROOT argv w) as (Ht & _ & _).
    rewrite Ht in Hall |- *. rewrite (upto_failure_all _ Hall). apply replay_invoked.
Qed.

(** X13: the format check is given an absolute path: for a root with
    components, the string of the root, a separator and the forward-slash
    form of the changed file. *)
Theorem format_check_target (argv : list string) (w : World) :
  wf ROOT = true -> is_absolute ROOT = true -> tail ROOT <> [] ->
  Forall (fun f => str (ROOT // f) = (str ROOT ++ "/" ++ as_posix f)%string /\
                   startswith (str (ROOT // f)) "/" = true)
         (files_of w argv).
Proof.
  intros HR Habs Hne. apply Forall_forall. intros f Hf.
  destruct (changed_files_spec fs_stat argv w f Hf) as (Hwf & Hrel & Hnf & _).
  assert (E : str (ROOT // f) = (str ROOT ++ "/" ++ as_posix f)%string).
  { apply wf_inv in HR as [Hr _]. apply wf_inv in Hwf as [_ Hpf].
    destruct ROOT as [r t], f as [rf tf]. unfold is_absolute in *. cbn [root tail] in *.
    apply negb_false_iff, String.eqb_eq in Hrel. subst rf.
    destruct tf as [|y tf]; [congruence|].
    assert (Hy : y <> "").
    { simpl in Hpf. apply andb_true_iff in Hpf as [Hy _]. now apply part_ok_inv in Hy. }
    rewrite (MoreQualify.as_posix_relative y tf Hy).
    unfold truediv, is_absolute, str. cbn [root tail String.eqb negb].
    rewrite join_sep_app by (assumption || discriminate).
    destruct Hr as [->|[->| ->]]; [discriminate Habs| |]; reflexivity. }
  split; [exact E|]. rewrite E.
  apply wf_inv in HR as [Hr _]. unfold is_absolute in Habs. unfold str.
  destruct Hr as [Hr|[Hr|Hr]]; rewrite Hr in *; [discriminate Habs| |]; cbn;
    first [reflexivity | apply startswith_spec; eexists; reflexivity].
Qed.

End Script.

(** A passing run on one file. *)
Lemma lint_only_after_format_checks_witness :
  let argv := ["terraform_lint.py"; "infra-ai-hub/a/x.tf"] in
  let t := trace_of (TerraformLint.main all_exist (counting all_pass) repo argv 0) in
  existsb (fun e => is_tflint (invoked e)) t = true /\
  exists tf tl,
    t = tf ++ tl /\
    map invoked tf = map (fmt_check repo) (changed_files_of all_exist 0 argv) /\
    forallb succeeded tf = true /\
    forallb (fun e => is_tflint (invoked e)) tl = true.
Proof.
  intros argv t. split; [reflexivity|].
  exact (lint_only_after_format_checks all_exist (counting all_pass) repo argv 0 eq_refl).
Defined.

(** A run whose lint check fails. *)
Lemma lint_check_follows_init_witness :
  let argv := ["terraform_lint.py"; "infra-ai-hub/a/x.tf"] in
  let a := Path_of "/repo/infra-ai-hub/a" in
  let t1 := [event (fmt_check repo (Path_of "infra-ai-hub/a/x.tf")) (Exited 0);
             event (lint_init a) (Exited 0)] in
  let e := event (lint_check a) (Exited 2) in
  trace_of (TerraformLint.main all_exist (counting lint_fails) repo argv 0) = t1 ++ e :: [] /\
  command (invoked e) = ["tflint"; "--minimum-failure-severity=error"] /\
  exists t0 e0,
    t1 = t0 ++ [e0] /\
    invoked e0 = invocation ["tflint"; "--init"] (cwd (invoked e)) /\
    succeeded e0 = true.
Proof.
  intros argv a t1 e. split; [reflexivity|]. split; [reflexivity|].
  exact (lint_check_follows_init all_exist (counting lint_fails) repo argv 0 t1 [] e
           eq_refl eq_refl).
Defined.

(** A passing run on two files of one directory. *)
Lemma success_covers_every_file_witness :
  let argv := ["terraform_lint.py"; "infra-ai-hub/a/x.tf"; "infra-ai-hub/a/y.tf"] in
  let t := trace_of (TerraformLint.main all_exist (counting all_pass) repo argv 0) in
  wf repo = true /\
  TerraformLint.exit_status all_exist (counting all_pass) repo argv 0 = 0%Z /\
  In "infra-ai-hub/a/y.tf" (tl argv) /\
  result_of (is_under_terraform_roots all_exist (Path_of "infra-ai-hub/a/y.tf") 0) = inr true /\
  In (event (invocation ["terraform"; "fmt"; "-check"; "-diff"; "/repo/infra-ai-hub/a/y.tf"]
               repo) (Exited 0)) t /\
  In (event (invocation ["tflint"; "--init"] (Path_of "/repo/infra-ai-hub/a")) (Exited 0)) t /\
  In (event (invocation ["tflint"; "--minimum-failure-severity=error"]
               (Path_of "/repo/infra-ai-hub/a")) (Exited 0)) t.
Proof.
  intros argv t.
  assert (Hs : In "infra-ai-hub/a/y.tf" (tl argv)) by (right; left; reflexivity).
  split; [reflexivity|]. split; [reflexivity|]. split; [exact Hs|]. split; [reflexivity|].
  exact (success_covers_every_file all_exist (counting all_pass) repo argv 0
           "infra-ai-hub/a/y.tf" eq_refl eq_refl Hs eq_refl).
Defined.

(** The targets of the format checks with the repository at [/repo]. *)
Lemma format_check_target_witness :
  let argv := ["terraform_lint.py"; "./infra-ai-hub//a/x.tf"] in
  wf repo = true /\ is_absolute repo = true /\ tail repo <> [] /\
  Forall (fun f => str (repo // f) = (str repo ++ "/" ++ as_posix f)%string /\
                   startswith (str (repo // f)) "/" = true)
         (changed_files_of all_exist 0 argv) /\
  map (fun f => str (repo // f)) (changed_files_of all_exist 0 argv)
  = ["/repo/infra-ai-hub/a/x.tf"].
Proof.
  intros argv.
  assert (Hne : tail repo <> []) by discriminate.
  split; [reflexivity|]. split; [reflexivity|]. split; [exact Hne|]. split; [|reflexivity].
  exact (format_check_target all_exist repo argv 0 eq_refl eq_refl Hne).
Defined.

End MoreRuns.
